(** * mdview: a Markdown-to-ANSI styler (src/mdview.py)

    A shallow embedding of [mdview.py] and the properties of its
    transformation pipeline.

    Python [str] values are sequences of Unicode code points; they are
    modelled as lists of [N].  The regular expressions of the program are
    kept as syntax and run by a small backtracking matcher that follows
    Python's [re] (greedy and lazy repetition, groups, [^] under
    [re.M], [.] under [re.S]).  Exceptions and the calls made to the
    libraries the program uses (pygments, requests, rich, markdown2, the
    file system, standard output) are modelled by a writer-and-error monad:
    a computation yields the trace of the external calls it made and
    either a value or the exception it raised. *)

From Equations Require Import Equations.
From stdpp Require Import base option list strings gmap.
From Stdlib Require Import NArith ZArith Lia Ascii.

Local Open Scope N_scope.

(** ** Text *)

Abbreviation codepoint := N (only parsing).
Abbreviation pystr := (list N) (only parsing).

Definition chr (a : ascii) : codepoint := N_of_ascii a.

(** A Python string literal of ASCII characters. *)
Definition lit (s : string) : pystr := chr <$> String.list_ascii_of_string s.

Arguments chr : simpl never.
Arguments lit : simpl never.

Definition NL : codepoint := 10.   (* '\n' *)
Definition ESC : codepoint := 27.  (* '\033' *)

Definition is_nl (c : codepoint) : bool := c =? NL.

(** ** Exceptions and outcomes *)

Inductive exn : Type :=
| KeyError (key : pystr)
| SystemExit (code : Z)
| FileNotFoundError (msg : pystr)
| RequestException (msg : pystr)
| OtherException (name : pystr).

Inductive outcome (A : Type) : Type :=
| Return (a : A)
| Raise (e : exn).
Arguments Return {A} a.
Arguments Raise {A} e.

(** ** The environment of the program

    What the interpreter and the imported libraries provide.  The Unicode
    character database decides [\s], [\d], [\w] and [str.split]; pygments
    resolves a language name to a lexer and highlights with it. *)

Class Runtime := {
  uni_isspace : codepoint -> bool;      (* [\s], [str.isspace] *)
  uni_isdecimal : codepoint -> bool;    (* [\d] *)
  uni_isalnum : codepoint -> bool;      (* [\w] is alphanumeric or '_' *)
  str_isdigit : pystr -> bool;          (* [str.isdigit] *)
  int_of_str : pystr -> outcome Z;      (* [int(s)] *)
  lexer : Type;
  get_lexer_by_name : pystr -> outcome lexer;
  highlight : pystr -> lexer -> outcome pystr;
  markdown_to_html : pystr -> outcome pystr;
  requests_get_text : pystr -> outcome pystr;
  open_read : pystr -> outcome pystr
}.

(** The character classes on the ASCII range, where every Unicode
    version agrees. *)
Definition ascii_isspace (c : codepoint) : bool :=
  ((9 <=? c) && (c <=? 13)) || ((28 <=? c) && (c <=? 32)).
Definition ascii_isdecimal (c : codepoint) : bool :=
  (48 <=? c) && (c <=? 57).
Definition ascii_isalnum (c : codepoint) : bool :=
  ascii_isdecimal c || ((65 <=? c) && (c <=? 90)) || ((97 <=? c) && (c <=? 122)).

Class UnicodeAscii (RT : Runtime) : Prop := {
  isspace_ascii : ∀ c, c < 128 → uni_isspace c = ascii_isspace c;
  isdecimal_ascii : ∀ c, c < 128 → uni_isdecimal c = ascii_isdecimal c;
  isalnum_ascii : ∀ c, c < 128 → uni_isalnum c = ascii_isalnum c
}.

(** ** Regular expressions

    The constructs that the patterns of [mdview.py] use.  Repetition is
    over one-character items only, which is all the program needs
    ([#{1,6}], [\s+], [\d+], [\w+], the lazy and greedy stars of [.]). *)

Inductive charset : Type :=
| CChar (c : codepoint)               (* a literal character *)
| CDot                                (* [.] *)
| CRange (lo hi : codepoint)          (* [[lo-hi]] *)
| CClass (p : codepoint -> bool).     (* [\s], [\d], [\w] *)

Inductive regex : Type :=
| RSet (cs : charset)                                 (* one character *)
| RBol                                                (* [^] *)
| RRep (greedy : bool) (lo : nat) (hi : option nat) (cs : charset)
| ROpt (r : regex)                                    (* [r?], greedy *)
| RGroup (n : nat) (r : regex)                        (* [( r )] *)
| RCat (r1 r2 : regex).

Infix "⋅" := RCat (at level 60, right associativity).

Record flags := { MULTILINE : bool; DOTALL : bool }.

Definition no_flags := {| MULTILINE := false; DOTALL := false |}.
Definition re_M := {| MULTILINE := true; DOTALL := false |}.
Definition re_S := {| MULTILINE := false; DOTALL := true |}.

Definition in_charset (fl : flags) (cs : charset) (c : codepoint) : bool :=
  match cs with
  | CChar c' => c =? c'
  | CDot => DOTALL fl || negb (is_nl c)
  | CRange lo hi => (lo <=? c) && (c <=? hi)
  | CClass p => p c
  end.

(** The state of a match attempt: the character before the current
    position ([None] at the start of the string), the text still to be
    read, and the groups captured so far. *)
Record mstate := {
  m_prev : option codepoint;
  m_rest : pystr;
  m_groups : gmap nat pystr
}.

Definition at_bol (fl : flags) (prev : option codepoint) : bool :=
  match prev with
  | None => true
  | Some c => MULTILINE fl && is_nl c
  end.

Definition hi_allows (hi : option nat) : bool :=
  match hi with Some 0%nat => false | _ => true end.

Definition hi_pred (hi : option nat) : option nat :=
  match hi with Some n => Some (Nat.pred n) | None => None end.

(** Greedy repetition: take a character while allowed, and give it back
    when the rest of the pattern fails after it. *)
Fixpoint rep_greedy {R} (ok : codepoint -> bool) (lo : nat) (hi : option nat)
    (prev : option codepoint) (s : pystr)
    (k : option codepoint -> pystr -> option R) : option R :=
  let stop := match lo with O => k prev s | S _ => None end in
  match s with
  | c :: s' =>
      if ok c && hi_allows hi then
        match rep_greedy ok (Nat.pred lo) (hi_pred hi) (Some c) s' k with
        | Some r => Some r
        | None => stop
        end
      else stop
  | [] => stop
  end.

(** Lazy repetition: try the rest of the pattern first, and take one more
    character only when it fails. *)
Fixpoint rep_lazy {R} (ok : codepoint -> bool) (lo : nat) (hi : option nat)
    (prev : option codepoint) (s : pystr)
    (k : option codepoint -> pystr -> option R) : option R :=
  let more :=
    match s with
    | c :: s' =>
        if ok c && hi_allows hi
        then rep_lazy ok (Nat.pred lo) (hi_pred hi) (Some c) s' k
        else None
    | [] => None
    end in
  match lo with
  | O => match k prev s with Some r => Some r | None => more end
  | S _ => more
  end.

(** [rmatch fl r st k]: match [r] at [st], then continue with [k];
    [None] makes the matcher backtrack. *)
Fixpoint rmatch (fl : flags) (r : regex) (st : mstate)
    (k : mstate -> option mstate) : option mstate :=
  match r with
  | RSet cs =>
      match m_rest st with
      | c :: s' =>
          if in_charset fl cs c
          then k {| m_prev := Some c; m_rest := s'; m_groups := m_groups st |}
          else None
      | [] => None
      end
  | RBol => if at_bol fl (m_prev st) then k st else None
  | RRep greedy lo hi cs =>
      (if greedy then rep_greedy else rep_lazy)
        (in_charset fl cs) lo hi (m_prev st) (m_rest st)
        (λ p s, k {| m_prev := p; m_rest := s; m_groups := m_groups st |})
  | ROpt r' =>
      match rmatch fl r' st k with
      | Some res => Some res
      | None => k st
      end
  | RGroup n r' =>
      rmatch fl r' st (λ st',
        let len := (length (m_rest st) - length (m_rest st'))%nat in
        k {| m_prev := m_prev st'; m_rest := m_rest st';
             m_groups := <[n := take len (m_rest st)]> (m_groups st') |})
  | RCat r1 r2 => rmatch fl r1 st (λ st', rmatch fl r2 st' k)
  end.

(** A match attempt at one position of the subject. *)
Definition match_at (fl : flags) (r : regex) (prev : option codepoint)
    (s : pystr) : option mstate :=
  rmatch fl r {| m_prev := prev; m_rest := s; m_groups := ∅ |} Some.

(** [m.group(n)]: [None] for a group that took no part in the match. *)
Definition group (m : mstate) (n : nat) : option pystr := m_groups m !! n.

(** A value placed in an f-string: Python writes [None] as the text
    "None".  Every [m.group(n)] of the program is used this way. *)
Definition fmt (v : option pystr) : pystr := default (lit "None") v.

(** The scanner of [re.sub] and [re.findall]: the subject read from left to
    right as a sequence of characters passed through and of matches, each
    search resuming where the previous match ended.  None of the patterns
    of the program matches the empty string; an attempt that would not
    advance is passed over. *)
Inductive item : Type :=
| Skip (c : codepoint)
| Hit (m : mstate).

Equations? scan (fl : flags) (r : regex) (prev : option codepoint) (s : pystr)
  : list item by wf (length s) lt :=
scan fl r prev [] := [];
scan fl r prev (c :: s') :=
  match match_at fl r prev (c :: s') with
  | Some m =>
      match lt_dec (length (m_rest m)) (length (c :: s')) with
      | left _ => Hit m :: scan fl r (m_prev m) (m_rest m)
      | right _ => Skip c :: scan fl r (Some c) s'
      end
  | None => Skip c :: scan fl r (Some c) s'
  end.
Proof. all: simpl in *; lia. Qed.

(** [re.findall] for a pattern with two groups: a pair per match, with the
    empty string for a group that took no part. *)
Definition re_findall (fl : flags) (r : regex) (s : pystr)
  : list (pystr * pystr) :=
  omap (λ it, match it with
              | Hit m => Some (default [] (group m 1), default [] (group m 2))
              | Skip _ => None
              end) (scan fl r None s).

(** ** String methods *)

Fixpoint starts_with (pre s : pystr) : bool :=
  match pre, s with
  | [], _ => true
  | p :: pre', c :: s' => (c =? p) && starts_with pre' s'
  | _ :: _, [] => false
  end.

(** [s.replace(old, new)]: every occurrence of [old], from the left and
    without overlap.  An empty [old] matches between all characters. *)
Equations? replace_from (old new s : pystr) : pystr by wf (length s) lt :=
replace_from old new [] := [];
replace_from old new (c :: s') :=
  match old with
  | [] => c :: replace_from old new s'
  | _ :: old' =>
      if starts_with old (c :: s')
      then new ++ replace_from old new (drop (length old') s')
      else c :: replace_from old new s'
  end.
Proof. all: simpl; rewrite ?length_drop; lia. Qed.

Definition str_replace (old new s : pystr) : pystr :=
  match old with
  | [] => new ++ flat_map (λ c, c :: new) s
  | _ :: _ => replace_from old new s
  end.

(** [sep.join(l)] *)
Fixpoint str_join (sep : pystr) (l : list pystr) : pystr :=
  match l with
  | [] => []
  | [x] => x
  | x :: l' => x ++ sep ++ str_join sep l'
  end.

(** [l[:n]] *)
Definition slice_to {A} (n : Z) (l : list A) : list A :=
  if (n <? 0)%Z then take (length l - Z.to_nat (- n)) l else take (Z.to_nat n) l.

(** A dict display [{k1: v1, ...}]: the entries are inserted in order. *)
Definition dict_literal (entries : list (pystr * pystr)) : gmap pystr pystr :=
  foldl (λ d kv, <[kv.1 := kv.2]> d) ∅ entries.

Section Program.
Context {RT : Runtime}.

(** [s.split()]: the maximal runs of non-whitespace characters. *)
Fixpoint split_from (cur s : pystr) : list pystr :=
  match s with
  | [] => match cur with [] => [] | _ => [cur] end
  | c :: s' =>
      if uni_isspace c
      then match cur with [] => split_from [] s' | _ => cur :: split_from [] s' end
      else split_from (cur ++ [c]) s'
  end.

Definition str_split (s : pystr) : list pystr := split_from [] s.

(** ** Effects

    The calls that leave the program, in the order they are made. *)
Inductive event : Type :=
| Ev_get_lexer_by_name (lang : pystr)
| Ev_highlight (code : pystr) (lx : lexer)
| Ev_markdown_to_html (text : pystr)
| Ev_requests_get (url : pystr)
| Ev_open (path : pystr)
| Ev_print (text : pystr)
| Ev_console_print (content : pystr).

Definition py (A : Type) : Type := list event * outcome A.

Definition ret {A} (a : A) : py A := ([], Return a).
Definition raise {A} (e : exn) : py A := ([], Raise e).

Definition bind {A B} (m : py A) (f : A -> py B) : py B :=
  match m with
  | (t, Return a) => let '(t', r) := f a in (t ++ t', r)
  | (t, Raise e) => (t, Raise e)
  end.

(** [try: m except: h] *)
Definition try_except {A} (m : py A) (h : exn -> option (py A)) : py A :=
  match m with
  | (t, Return a) => (t, Return a)
  | (t, Raise e) =>
      match h e with
      | Some handler => let '(t', r) := handler in (t ++ t', r)
      | None => (t, Raise e)
      end
  end.

(** A call into a library: recorded, and its outcome passed on. *)
Definition call {A} (ev : event) (res : outcome A) : py A := ([ev], res).

Definition trace {A} (m : py A) : list event := m.1.
Definition result {A} (m : py A) : outcome A := m.2.

Notation "'let*' x := m 'in' k" := (bind m (λ x, k))
  (at level 10, x name, m at level 100, k at level 200, format "'[v' 'let*'  x  :=  m  'in' '/' k ']'").

(** [re.sub(pattern, repl, string)] with a function [repl]: the matches are
    replaced from left to right; an exception of [repl] ends the
    substitution. *)
Fixpoint expand (repl : mstate -> py pystr) (items : list item) : py pystr :=
  match items with
  | [] => ret []
  | Skip c :: items' => let* tl := expand repl items' in ret (c :: tl)
  | Hit m :: items' => let* x := repl m in let* tl := expand repl items' in ret (x ++ tl)
  end.

Definition re_sub (fl : flags) (r : regex) (repl : mstate -> py pystr)
    (s : pystr) : py pystr :=
  expand repl (scan fl r None s).

(** ** mdview.py *)

Definition ANSI_CODES : gmap pystr pystr := dict_literal [
  (lit "bold", ESC :: lit "[1m"); (lit "italic", ESC :: lit "[3m");
  (lit "underline", ESC :: lit "[4m"); (lit "reset", ESC :: lit "[0m");
  (lit "bold_italic", (ESC :: lit "[1m") ++ ESC :: lit "[3m");
  (lit "bold_underline", (ESC :: lit "[1m") ++ ESC :: lit "[4m");
  (lit "italic_underline", (ESC :: lit "[3m") ++ ESC :: lit "[4m");
  (lit "bold_italic_underline",
     (ESC :: lit "[1m") ++ (ESC :: lit "[3m") ++ ESC :: lit "[4m");
  (lit "strikethrough", ESC :: lit "[9m");
  (lit "italic_bold_underline",
     (ESC :: lit "[3m") ++ (ESC :: lit "[1m") ++ ESC :: lit "[4m");
  (lit "double_underline", ESC :: lit "[21m");
  (lit "inverse", ESC :: lit "[7m"); (lit "hidden", ESC :: lit "[8m");
  (lit "fraktur", ESC :: lit "[20m"); (lit "normal", ESC :: lit "[22m");
  (lit "blink", ESC :: lit "[5m"); (lit "reverse", ESC :: lit "[7m")
].

(** [d[k]] *)
Definition dict_getitem (d : gmap pystr pystr) (k : pystr) : py pystr :=
  match d !! k with
  | Some v => ret v
  | None => raise (KeyError k)
  end.

(** [d.get(k, dflt)] *)
Definition dict_get (d : gmap pystr pystr) (k dflt : pystr) : pystr :=
  default dflt (d !! k).

Definition apply_ansi_style (text style : pystr) : py pystr :=
  let prefix := dict_get ANSI_CODES style [] in
  let* reset := dict_getitem ANSI_CODES (lit "reset") in
  ret (prefix ++ text ++ reset).

Definition highlight_code (code lang : pystr) : py pystr :=
  try_except
    (let* lx := call (Ev_get_lexer_by_name lang) (get_lexer_by_name lang) in
     call (Ev_highlight code lx) (highlight code lx))
    (λ _, Some (ret code)).

(** The character classes of the patterns. *)
Definition cs_space : charset := CClass uni_isspace.
Definition cs_digit : charset := CClass uni_isdecimal.
Definition cs_word : charset := CClass (λ c, uni_isalnum c || (c =? chr "_")).

Definition star (cs : charset) : regex := RRep true 0 None cs.
Definition plus (cs : charset) : regex := RRep true 1 None cs.
Definition lazy_star (cs : charset) : regex := RRep false 0 None cs.
Definition rchar (a : ascii) : regex := RSet (CChar (chr a)).

(** The patterns, spelled with spaces between their parts.
    Headings: [^ (#{1,6}) \s* ( .* )] *)
Definition re_heading : regex :=
  RBol ⋅ RGroup 1 (RRep true 1 (Some 6%nat) (CChar (chr "#")))
       ⋅ star cs_space ⋅ RGroup 2 (star CDot).
(** Bold: [\*\* ( .*? ) \*\*] *)
Definition re_bold : regex :=
  rchar "*" ⋅ rchar "*" ⋅ RGroup 1 (lazy_star CDot) ⋅ rchar "*" ⋅ rchar "*".
(** Italic: [_ ( .*? ) _] *)
Definition re_italic : regex :=
  rchar "_" ⋅ RGroup 1 (lazy_star CDot) ⋅ rchar "_".
(** Underline: [__ ( .*? ) __] *)
Definition re_underline : regex :=
  rchar "_" ⋅ rchar "_" ⋅ RGroup 1 (lazy_star CDot) ⋅ rchar "_" ⋅ rchar "_".
(** Strikethrough: [~~ ( .*? ) ~~] *)
Definition re_strike : regex :=
  rchar "~" ⋅ rchar "~" ⋅ RGroup 1 (lazy_star CDot) ⋅ rchar "~" ⋅ rchar "~".
(** Block quotes: [^ \> ' ' ( .* )] *)
Definition re_quote : regex :=
  RBol ⋅ rchar ">" ⋅ rchar " " ⋅ RGroup 1 (star CDot).
(** Unordered items: [^ [*-+] \s+ ( .* )]; between brackets, [*-+] is
    the range of characters from '*' to '+'. *)
Definition re_ulist : regex :=
  RBol ⋅ RSet (CRange (chr "*") (chr "+")) ⋅ plus cs_space
       ⋅ RGroup 1 (star CDot).
(** Ordered items: [^ \d+ \. \s+ ( .* )] *)
Definition re_olist : regex :=
  RBol ⋅ plus cs_digit ⋅ rchar "." ⋅ plus cs_space ⋅ RGroup 1 (star CDot).
(** Fenced blocks, under [re.S]: [``` (\w+)? \n ( .*? ) ```] *)
Definition re_fence : regex :=
  rchar "`" ⋅ rchar "`" ⋅ rchar "`" ⋅ ROpt (RGroup 1 (plus cs_word))
    ⋅ RSet (CChar NL) ⋅ RGroup 2 (lazy_star CDot)
    ⋅ rchar "`" ⋅ rchar "`" ⋅ rchar "`".

Definition styled (n : nat) (style : string) (m : mstate) : py pystr :=
  apply_ansi_style (fmt (group m n)) (lit style).

(** The eight [re.sub] passes of [render_markdown]. *)
Definition style_stages (text : pystr) : py pystr :=
  let* text := re_sub re_M re_heading (styled 2 "bold") text in
  let* text := re_sub no_flags re_bold (styled 1 "bold") text in
  let* text := re_sub no_flags re_italic (styled 1 "italic") text in
  let* text := re_sub no_flags re_underline (styled 1 "underline") text in
  let* text := re_sub no_flags re_strike (styled 1 "strikethrough") text in
  let* text := re_sub re_M re_quote (styled 1 "italic") text in
  let* text := re_sub re_M re_ulist (λ m, ret (lit "- " ++ fmt (group m 1))) text in
  re_sub re_M re_olist (λ m, ret (lit "1. " ++ fmt (group m 1))) text.

(** The [for lang, code in code_blocks] loop. *)
Fixpoint highlight_blocks (code_blocks : list (pystr * pystr)) (text : pystr)
  : py pystr :=
  match code_blocks with
  | [] => ret text
  | (lang, code) :: code_blocks' =>
      let* highlighted := highlight_code code (match lang with [] => lit "plaintext" | _ => lang end) in
      highlight_blocks code_blocks'
        (str_replace (lit "```" ++ lang ++ [NL] ++ code ++ lit "```")
                     highlighted text)
  end.

(** The fenced-block pass of [render_markdown]. *)
Definition fence_stage (text : pystr) : py pystr :=
  let code_blocks := re_findall re_S re_fence text in
  highlight_blocks code_blocks text.

Definition render_markdown (text : pystr) : py pystr :=
  let* text := style_stages text in
  fence_stage text.

Definition sys_exit {A} (code : Z) : py A := raise (SystemExit code).

Definition print (text : pystr) : py unit := call (Ev_print text) (Return ()).

Definition fetch_github_raw (url : pystr) : py pystr :=
  try_except
    (call (Ev_requests_get url) (requests_get_text url))
    (λ e, match e with
          | RequestException msg =>
              Some (let* _ := print (lit "Error fetching file: " ++ msg) in sys_exit 1)
          | _ => None
          end).

(** The truncation of [view_markdown]:
    [words = content.split()], then
    [if word_limit: content = ' '.join(words[:word_limit])]. *)
Definition truncate_words (content : pystr) (word_limit : option Z) : pystr :=
  let words := str_split content in
  match word_limit with
  | Some n => if (n =? 0)%Z then content
              else str_join (lit " ") (slice_to n words)
  | None => content
  end.

Definition view_markdown (content : pystr) (word_limit : option Z)
    (output_html : bool) : py unit :=
  let* content := render_markdown content in
  let* content := (if output_html
             then call (Ev_markdown_to_html content) (markdown_to_html content)
             else ret content) in
  let content := truncate_words content word_limit in
  call (Ev_console_print content) (Return ()).

Definition get_file_content (filename_or_url : pystr) : py pystr :=
  if starts_with (lit "https://raw.githubusercontent.com") filename_or_url
  then fetch_github_raw filename_or_url
  else
    try_except
      (call (Ev_open filename_or_url) (open_read filename_or_url))
      (λ e, match e with
            | FileNotFoundError _ =>
                Some (let* _ := print (lit "File " ++ filename_or_url ++ lit " not found.") in
                      sys_exit 1)
            | _ => None
            end).

Definition convert_to_html (content : pystr) : py pystr :=
  call (Ev_markdown_to_html content) (markdown_to_html content).

Definition usage : pystr :=
  lit "Usage: view <filename>.md or <GitHub raw link> [word_limit] [--html]".

Definition str_eqb (a b : pystr) : bool := bool_decide (a = b).

(** [sys.argv[i]] *)
Definition argv_at (argv : list pystr) (i : nat) : pystr := default [] (argv !! i).

(** The [if __name__ == '__main__'] block. *)
Definition main (argv : list pystr) : py unit :=
  if (length argv <? 2)%nat then
    let* _ := print usage in sys_exit 1
  else
    let filename_or_url := argv_at argv 1 in
    let* opts := (if (length argv =? 3)%nat && str_isdigit (argv_at argv 2) then
         let* n := ([], int_of_str (argv_at argv 2)) in ret (Some n, false)
       else if (3 <? length argv)%nat && str_eqb (argv_at argv 2) (lit "--html") then
         if (length argv =? 4)%nat && str_isdigit (argv_at argv 3) then
           let* n := ([], int_of_str (argv_at argv 3)) in ret (Some n, true)
         else ret (None, true)
       else ret (None, false)) in
    let* content := get_file_content filename_or_url in
    view_markdown content opts.1 opts.2.

(** The exit status of the process. *)
Definition exit_code {A} (m : py A) : Z :=
  match result m with
  | Return _ => 0
  | Raise (SystemExit code) => code
  | Raise _ => 1
  end.

End Program.

(** ** A small environment

    An environment to run the program in: the ASCII classes together with
    the no-break space and the Arabic-Indic digits, a pygments that knows
    two language names, a file system with one file, and no network. *)
Module Sample.

Definition isspace (c : codepoint) : bool := ascii_isspace c || (c =? 160).
Definition isdecimal (c : codepoint) : bool :=
  ascii_isdecimal c || ((1632 <=? c) && (c <=? 1641)).
Definition isalnum (c : codepoint) : bool := ascii_isalnum c || isdecimal c.

Definition to_int (s : pystr) : outcome Z :=
  if forallb ascii_isdecimal s && negb (bool_decide (s = []))
  then Return (foldl (λ acc c, acc * 10 + Z.of_N (c - 48))%Z 0%Z s)
  else Raise (OtherException (lit "ValueError")).

Definition lexer_of (lang : pystr) : outcome unit :=
  if bool_decide (lang = lit "python") || bool_decide (lang = lit "plaintext")
  then Return ()
  else Raise (OtherException (lit "ClassNotFound")).

Definition colour (code : pystr) (_ : unit) : outcome pystr :=
  Return ((ESC :: lit "[34m") ++ code ++ ESC :: lit "[39m").

Definition read (path : pystr) : outcome pystr :=
  if bool_decide (path = lit "README.md")
  then Return (lit "# Title" ++ [NL])
  else Raise (FileNotFoundError path).

#[export] Instance runtime : Runtime := {|
  uni_isspace := isspace;
  uni_isdecimal := isdecimal;
  uni_isalnum := isalnum;
  str_isdigit := λ s, forallb isdecimal s && negb (bool_decide (s = []));
  int_of_str := to_int;
  lexer := unit;
  get_lexer_by_name := lexer_of;
  highlight := colour;
  markdown_to_html := λ s, Return (lit "<p>" ++ s ++ lit "</p>");
  requests_get_text := λ _, Raise (RequestException (lit "no network"));
  open_read := read
|}.

(** The same with a converter to HTML that fails. *)
Definition no_html : Runtime := {|
  uni_isspace := isspace;
  uni_isdecimal := isdecimal;
  uni_isalnum := isalnum;
  str_isdigit := λ s, forallb isdecimal s && negb (bool_decide (s = []));
  int_of_str := to_int;
  lexer := unit;
  get_lexer_by_name := lexer_of;
  highlight := colour;
  markdown_to_html := λ _, Raise (OtherException (lit "ValueError"));
  requests_get_text := λ _, Raise (RequestException (lit "no network"));
  open_read := read
|}.

(** The same with a [str.isdigit] that also accepts the superscript
    digits, which [int] rejects. *)
Definition any_digits : Runtime := {|
  uni_isspace := isspace;
  uni_isdecimal := isdecimal;
  uni_isalnum := isalnum;
  str_isdigit := λ s,
    forallb (λ c, isdecimal c || (c =? 178) || (c =? 179) || (c =? 185)) s
    && negb (bool_decide (s = []));
  int_of_str := to_int;
  lexer := unit;
  get_lexer_by_name := lexer_of;
  highlight := colour;
  markdown_to_html := λ s, Return (lit "<p>" ++ s ++ lit "</p>");
  requests_get_text := λ _, Raise (RequestException (lit "no network"));
  open_read := read
|}.

End Sample.


(** ** Vocabulary of the properties

    The predicates and auxiliary functions in which the properties are
    stated and proved. *)

Section Vocabulary.
Context {RT : Runtime}.

Definition groups_ok (P : N -> Prop) (gs : gmap nat (list N)) : Prop :=
  map_Forall (λ _ g, Forall P g) gs.

(** Patterns that begin with a given character. *)
Fixpoint first_char (r : regex) (d : N) : bool :=
  match r with
  | RSet (CChar c) => c =? d
  | RGroup _ r' => first_char r' d
  | RCat r1 _ => first_char r1 d
  | _ => false
  end.

(** Patterns that end with a given character. *)
Fixpoint last_char (r : regex) (d : N) : bool :=
  match r with
  | RSet (CChar c) => c =? d
  | RGroup _ r' => last_char r' d
  | RCat _ r2 => last_char r2 d
  | _ => false
  end.

(** The positions of a subject where a match is attempted: the character
    before each and the text from it. *)
Fixpoint positions (prev : option N) (s : list N) : list (option N * list N) :=
  match s with
  | [] => []
  | c :: s' => (prev, s) :: positions (Some c) s'
  end.

(** The text that a substitution with a replacement that does not fail
    builds. *)
Fixpoint splice (f : mstate -> list N) (items : list item) : list N :=
  match items with
  | [] => []
  | Skip c :: items' => c :: splice f items'
  | Hit m :: items' => f m ++ splice f items'
  end.

Definition item_ok (P : N -> Prop) (it : item) : Prop :=
  match it with
  | Skip c => P c
  | Hit m => groups_ok P (m_groups m)
  end.

(** A token of [str.split()]: not empty and free of whitespace. *)
Definition is_token {RT : Runtime} (w : list N) : Prop :=
  w ≠ [] ∧ Forall (λ c, uni_isspace c = false) w.

Definition at_line_start (p : option N) : bool :=
  match p with None => true | Some c => is_nl c end.

(** No line of [s] begins the way [start] recognises. *)
Definition no_line_starts (start : list N -> bool) (s : list N) : bool :=
  forallb (λ pl, negb (at_line_start pl.1 && start pl.2)) (positions None s).

(** [pat] occurs in [s]. *)
Definition contains (pat s : list N) : bool :=
  existsb (λ pl, starts_with pat pl.2) (positions None s).

(** A list marker: '*', '-' or '+' followed by whitespace. *)
Definition starts_list_marker (l : list N) : bool :=
  match l with
  | m :: w :: _ =>
      ((m =? chr "*") || (m =? chr "-") || (m =? chr "+")) && uni_isspace w
  | _ => false
  end.

Fixpoint after_digits (s : list N) : list N :=
  match s with
  | c :: s' => if uni_isdecimal c then after_digits s' else s
  | [] => []
  end.

(** One or more digits and a period. *)
Definition starts_ordinal (l : list N) : bool :=
  match l with
  | c :: _ => uni_isdecimal c && starts_with (lit ".") (after_digits l)
  | [] => false
  end.

(** Text without Markdown markup: no line starting with '#', "> ", a
    list marker or digits and a period, and no occurrence of "**", '_',
    "~~" or a backtick fence. *)
Definition plain_text (s : list N) : bool :=
  no_line_starts (starts_with (lit "#")) s
  && no_line_starts (starts_with (lit "> ")) s
  && no_line_starts starts_list_marker s
  && no_line_starts starts_ordinal s
  && negb (contains (lit "**") s)
  && negb (contains (lit "_") s)
  && negb (contains (lit "~~") s)
  && negb (contains (lit "```") s).

(** What the patterns of the two list passes need at a line start. *)
Definition starts_ulist (l : list N) : bool :=
  match l with
  | m :: w :: _ => ((chr "*" <=? m) && (m <=? chr "+")) && uni_isspace w
  | _ => false
  end.

Definition dot_space (l : list N) : bool :=
  match l with
  | d :: w :: _ => (d =? chr ".") && uni_isspace w
  | _ => false
  end.

Definition starts_olist (l : list N) : bool :=
  match l with
  | c :: _ => uni_isdecimal c && dot_space (after_digits l)
  | [] => false
  end.

(** The replacement of a styling pass, which never fails: the prefix of
    the style, the group and the reset sequence. *)
Definition span (style : string) (n : nat) (m : mstate) : list N :=
  dict_get ANSI_CODES (lit style) [] ++ fmt (group m n) ++ ESC :: lit "[0m".

Definition sub_heading {RT : Runtime} (s : list N) : list N :=
  splice (span "bold" 2) (scan re_M re_heading None s).

Definition sub_bold (s : list N) : list N :=
  splice (span "bold" 1) (scan no_flags re_bold None s).

Definition sub_italic (s : list N) : list N :=
  splice (span "italic" 1) (scan no_flags re_italic None s).

Definition sub_underline (s : list N) : list N :=
  splice (span "underline" 1) (scan no_flags re_underline None s).

Definition sub_strike (s : list N) : list N :=
  splice (span "strikethrough" 1) (scan no_flags re_strike None s).

Definition sub_quote (s : list N) : list N :=
  splice (span "italic" 1) (scan re_M re_quote None s).

Definition sub_ulist {RT : Runtime} (s : list N) : list N :=
  splice (λ m, lit "- " ++ fmt (group m 1)) (scan re_M re_ulist None s).

Definition sub_olist {RT : Runtime} (s : list N) : list N :=
  splice (λ m, lit "1. " ++ fmt (group m 1)) (scan re_M re_olist None s).

(** The characters that the passes insert. *)
Definition inserted : list N := ESC :: lit "[01349m- .None".

(** Text on which no pattern of [render_markdown] matches. *)
Definition inert {RT : Runtime} (s : list N) : bool :=
  no_line_starts (starts_with (lit "#")) s
  && negb (contains (lit "**") s)
  && negb (contains (lit "_") s)
  && negb (contains (lit "~~") s)
  && no_line_starts (starts_with (lit "> ")) s
  && no_line_starts starts_ulist s
  && no_line_starts starts_olist s
  && negb (contains (lit "```") s).

(** The character before the position reached after reading [t]. *)
Definition lastp (prev : option N) (t : list N) : option N :=
  foldl (λ _ c, Some c) prev t.

(** Patterns that cannot match without reading a given character. *)
Fixpoint needs_char (r : regex) (d : N) : bool :=
  match r with
  | RSet (CChar c) => c =? d
  | RGroup _ r' => needs_char r' d
  | RCat r1 r2 => needs_char r1 d || needs_char r2 d
  | _ => false
  end.

(** The calls of one [highlight_code]. *)
Definition highlight_calls (code lang : list N) : list event :=
  Ev_get_lexer_by_name lang ::
  match get_lexer_by_name lang with
  | Return lx => [Ev_highlight code lx]
  | Raise _ => []
  end.

Definition lang_or_plaintext (lang : list N) : list N :=
  match lang with [] => lit "plaintext" | _ => lang end.

(** What may follow a line: nothing, or a newline and more text. *)
Definition tail_ok (rest : list N) : Prop :=
  rest = [] ∨ ∃ more, rest = NL :: more.

Section Lines.
Variables (r : regex) (start : list N -> bool).
Variable h : gmap nat (list N) -> list N.

(** A line that the pattern passes over, and a line that it matches from
    its first to its last character with the groups [g]. *)
Definition line_miss (l : list N) : Prop :=
  Forall (λ c, c ≠ NL) l ∧ ∀ rest, tail_ok rest -> start (l ++ rest) = false.

Definition line_hit (l : list N) (g : gmap nat (list N)) : Prop :=
  Forall (λ c, c ≠ NL) l ∧ l ≠ [] ∧
  ∀ p rest, at_bol re_M p = true -> tail_ok rest ->
    match_at re_M r p (l ++ rest)
    = Some {| m_prev := lastp p l; m_rest := rest; m_groups := g |}.

Definition line_wf (lg : list N * option (gmap nat (list N))) : Prop :=
  match lg.2 with
  | None => line_miss lg.1
  | Some g => line_hit lg.1 g
  end.

Definition line_out (lg : list N * option (gmap nat (list N))) : list N :=
  match lg.2 with
  | None => lg.1
  | Some g => h g
  end.

(** The scan of what follows a line. *)
Definition scan_tail (rest : list N) : list item :=
  match rest with
  | [] => []
  | c :: more => Skip c :: scan re_M r (Some c) more
  end.

End Lines.

(** A line of a document: plain text, an unordered item written with '*'
    or '+', or an ordered item. *)
Inductive doc_line : Type :=
| Plain (l : list N)
| Bullet (marker : N) (ws body : list N)
| Ordered (ds ws body : list N).

Definition markup_char (c : N) : bool :=
  is_nl c || (c =? chr "*") || (c =? chr "_") || (c =? chr "~") || (c =? chr "`").

Definition markup_free (l : list N) : bool := forallb (λ c, negb (markup_char c)) l.

(** Whitespace between the marker and the text of an item: not empty, and
    on the line. *)
Definition blank (ws : list N) : bool :=
  match ws with
  | [] => false
  | _ => forallb (λ c, uni_isspace c && negb (is_nl c)) ws
  end.

(** The text of an item: without markup, not empty, and not beginning
    with whitespace. *)
Definition item_text (body : list N) : bool :=
  markup_free body &&
  match body with
  | b :: _ => negb (uni_isspace b)
  | [] => false
  end.

Definition line_ok (dl : doc_line) : bool :=
  match dl with
  | Plain l =>
      markup_free l && negb (starts_with (lit "#") l)
      && negb (starts_with (lit "> ") l)
      && negb (starts_ulist (l ++ [NL])) && negb (starts_olist (l ++ [NL]))
  | Bullet m ws body =>
      ((m =? chr "*") || (m =? chr "+")) && blank ws && item_text body
  | Ordered ds ws body =>
      match ds with [] => false | _ => forallb uni_isdecimal ds end
      && blank ws && item_text body
  end.

(** The line as written, and as [render_markdown] returns it. *)
Definition source (dl : doc_line) : list N :=
  match dl with
  | Plain l => l
  | Bullet m ws body => m :: ws ++ body
  | Ordered ds ws body => ds ++ lit "." ++ ws ++ body
  end.

Definition rendered (dl : doc_line) : list N :=
  match dl with
  | Plain l => l
  | Bullet _ _ body => lit "- " ++ body
  | Ordered _ _ body => lit "1. " ++ body
  end.

(** A line after the unordered pass. *)
Definition after_ulist (dl : doc_line) : list N :=
  match dl with
  | Bullet _ _ body => lit "- " ++ body
  | _ => source dl
  end.

(** The groups that the unordered pattern captures on a line. *)
Definition ulist_groups (dl : doc_line) : option (gmap nat (list N)) :=
  match dl with
  | Bullet _ _ body => Some (<[ 1%nat := body ]> ∅)
  | _ => None
  end.

(** The groups that the ordered pattern captures on a line. *)
Definition olist_groups (dl : doc_line) : option (gmap nat (list N)) :=
  match dl with
  | Ordered _ _ body => Some (<[ 1%nat := body ]> ∅)
  | _ => None
  end.

(** Text on which no pattern of the styling passes matches. *)
Definition style_inert (s : list N) : bool :=
  no_line_starts (starts_with (lit "#")) s
  && negb (contains (lit "**") s)
  && negb (contains (lit "_") s)
  && negb (contains (lit "~~") s)
  && no_line_starts (starts_with (lit "> ")) s
  && no_line_starts starts_ulist s
  && no_line_starts starts_olist s.

(** A language tag: characters of [\w]. *)
Definition is_tag (lang : list N) : bool :=
  forallb (λ c, uni_isalnum c || (c =? chr "_")) lang.

(** [ANSI_CODES.get(style, '')] and [ANSI_CODES['reset']]. *)
Definition sgr (style : string) : list N := dict_get ANSI_CODES (lit style) [].

Definition sgr_reset : list N := ESC :: lit "[0m".

(** The inline styles that take effect, their delimiters and the names
    of their entries in [ANSI_CODES]. *)
Inductive inline : Type := Strong | Emphasis | Struck.

Definition delimiter (st : inline) : list N :=
  match st with
  | Strong => lit "**"
  | Emphasis => lit "_"
  | Struck => lit "~~"
  end.

Definition style_of (st : inline) : string :=
  match st with
  | Strong => "bold"
  | Emphasis => "italic"
  | Struck => "strikethrough"
  end.

(** The beginning of a line that no line pattern recognises. *)
Definition no_block_start (pre : list N) : bool :=
  negb (starts_with (lit "#") pre) && negb (starts_with (lit "> ") pre)
  && negb (starts_ulist pre) && negb (starts_olist pre).

(** Whitespace only, newlines included. *)
Definition all_space (ws : list N) : bool := forallb uni_isspace ws.

(** The title of a heading: without markup and not beginning with
    whitespace. *)
Definition title_text (title : list N) : bool :=
  markup_free title &&
  match title with
  | c :: _ => negb (uni_isspace c)
  | [] => true
  end.

End Vocabulary.

(** * Properties *)

(** Replace the character and string literals by their code points. *)
Ltac eval_lits :=
  repeat match goal with
  | |- context [lit ?s] =>
      let v := eval vm_compute in (lit s) in change (lit s) with v
  | |- context [chr ?a] =>
      let v := eval vm_compute in (chr a) in change (chr a) with v
  | H : context [lit ?s] |- _ =>
      let v := eval vm_compute in (lit s) in change (lit s) with v in H
  | H : context [chr ?a] |- _ =>
      let v := eval vm_compute in (chr a) in change (chr a) with v in H
  end.

Section Monad.
Context {RT : Runtime}.

Lemma bind_ret_l {A B} (a : A) (f : A -> py B) : bind (ret a) f = f a.
Proof. unfold bind, ret. destruct (f a); reflexivity. Qed.

Lemma bind_ret_r {A} (m : py A) : bind m ret = m.
Proof.
  destruct m as [t [a|e]]; unfold bind, ret; simpl; [|reflexivity].
  rewrite app_nil_r; reflexivity.
Qed.

Lemma reset_code : ANSI_CODES !! lit "reset" = Some (ESC :: lit "[0m").
Proof. vm_compute. reflexivity. Qed.

Lemma apply_ansi_style_ret (text style : pystr) :
  apply_ansi_style text style
  = ret (dict_get ANSI_CODES style [] ++ text ++ ESC :: lit "[0m").
Proof.
  unfold apply_ansi_style, dict_getitem. rewrite reset_code.
  rewrite bind_ret_l. reflexivity.
Qed.

End Monad.

(** ** The matcher *)

Section Matcher.

Lemma Forall_suffix_of (P : N -> Prop) (s' s : list N) :
  s' `suffix_of` s -> Forall P s -> Forall P s'.
Proof. intros [k ->] H. apply Forall_app in H. tauto. Qed.

Lemma suffix_length_le (s' s : list N) :
  s' `suffix_of` s -> (length s' <= length s)%nat.
Proof. intros [k ->]. rewrite length_app. lia. Qed.

Lemma rep_greedy_inv {R} ok lo hi prev s (k : option N -> list N -> option R) r :
  rep_greedy ok lo hi prev s k = Some r ->
  ∃ p' s', k p' s' = Some r ∧ s' `suffix_of` s.
Proof.
  revert lo hi prev. induction s as [|c s IH]; intros lo hi prev; simpl.
  - destruct lo; [|discriminate]. intros H. exists prev, []. done.
  - destruct (ok c && hi_allows hi).
    + destruct (rep_greedy ok (Nat.pred lo) (hi_pred hi) (Some c) s k) eqn:E.
      * intros [= ->]. apply IH in E as (p' & s' & Hk & Hs).
        exists p', s'. split; [done|]. by apply suffix_cons_r.
      * destruct lo; [|discriminate]. intros H. exists prev, (c :: s). done.
    + destruct lo; [|discriminate]. intros H. exists prev, (c :: s). done.
Qed.

Lemma rep_lazy_inv {R} ok lo hi prev s (k : option N -> list N -> option R) r :
  rep_lazy ok lo hi prev s k = Some r ->
  ∃ p' s', k p' s' = Some r ∧ s' `suffix_of` s.
Proof.
  revert lo hi prev. induction s as [|c s IH]; intros lo hi prev; simpl.
  - destruct lo; [|discriminate].
    destruct (k prev []) eqn:E; [|discriminate].
    intros [= ->]. exists prev, []. done.
  - assert (Hmore : (if ok c && hi_allows hi
                     then rep_lazy ok (Nat.pred lo) (hi_pred hi) (Some c) s k
                     else None) = Some r ->
                    ∃ p' s', k p' s' = Some r ∧ s' `suffix_of` c :: s).
    { destruct (ok c && hi_allows hi); [|discriminate].
      intros E. apply IH in E as (p' & s' & Hk & Hs).
      exists p', s'. split; [done|]. by apply suffix_cons_r. }
    destruct lo; [|exact Hmore].
    destruct (k prev (c :: s)) eqn:E; [|exact Hmore].
    intros [= ->]. exists prev, (c :: s). done.
Qed.

(** A successful match called its continuation further along the subject;
    the groups it captured are pieces of the subject. *)
Lemma rmatch_inv fl r st k m :
  rmatch fl r st k = Some m ->
  ∃ st', k st' = Some m ∧ m_rest st' `suffix_of` m_rest st ∧
    ∀ P, Forall P (m_rest st) -> groups_ok P (m_groups st) ->
         groups_ok P (m_groups st').
Proof.
  revert st k. induction r as [cs| |g lo hi cs|r IH|n r IH|r1 IH1 r2 IH2];
    intros st k; simpl.
  - destruct (m_rest st) as [|c s'] eqn:E; [discriminate|].
    destruct (in_charset fl cs c); [|discriminate].
    intros H. eexists. split; [exact H|]. simpl. split; [|done].
    by apply suffix_cons_r.
  - destruct (at_bol fl (m_prev st)); [|discriminate].
    intros H. exists st. done.
  - intros H.
    assert (∃ p' s', k {| m_prev := p'; m_rest := s'; m_groups := m_groups st |}
                     = Some m ∧ s' `suffix_of` m_rest st) as (p' & s' & Hk & Hs).
    { destruct g; [apply rep_greedy_inv in H|apply rep_lazy_inv in H]; exact H. }
    eexists. split; [exact Hk|]. simpl. done.
  - destruct (rmatch fl r st k) eqn:E.
    + intros [= ->]. by apply IH.
    + intros H. exists st. done.
  - intros H. apply IH in H as (st1 & Hk & Hs & Hg).
    eexists. split; [exact Hk|]. simpl. split; [done|].
    intros P HP Hgs. apply map_Forall_insert_2; [|by apply Hg].
    by apply Forall_take.
  - intros H. apply IH1 in H as (st1 & Hk & Hs & Hg).
    apply IH2 in Hk as (st2 & Hk2 & Hs2 & Hg2).
    exists st2. split; [done|]. split; [by etrans|].
    intros P HP Hgs. apply Hg2; [|by apply Hg].
    by eapply Forall_suffix_of.
Qed.

Lemma rmatch_first_char fl r d st k :
  first_char r d = true ->
  head (m_rest st) ≠ Some d ->
  rmatch fl r st k = None.
Proof.
  revert st k. induction r as [cs| |g lo hi cs|r IH|n r IH|r1 IH1 r2 IH2];
    intros st k; simpl; try discriminate.
  - destruct cs; try discriminate. intros ->%N.eqb_eq Hh.
    destruct (m_rest st) as [|c' s']; [done|]. simpl in *.
    destruct (N.eqb_spec c' d); [congruence|done].
  - intros H Hh. by apply IH.
  - intros H Hh. by apply IH1.
Qed.

Lemma rmatch_last_char fl r d st k m :
  last_char r d = true ->
  rmatch fl r st k = Some m ->
  ∃ st', k st' = Some m ∧ (d :: m_rest st') `suffix_of` m_rest st.
Proof.
  revert st k. induction r as [cs| |g lo hi cs|r IH|n r IH|r1 IH1 r2 IH2];
    intros st k; simpl; try discriminate.
  - destruct cs; try discriminate. intros ->%N.eqb_eq.
    destruct (m_rest st) as [|c' s'] eqn:E; [discriminate|]. simpl.
    destruct (N.eqb_spec c' d) as [->|]; [|discriminate].
    intros H. eexists. split; [exact H|]. done.
  - intros Hl H. apply IH in H as (st1 & Hk & Hs); [|done].
    eexists. split; [exact Hk|]. done.
  - intros Hl H. apply rmatch_inv in H as (st1 & Hk & Hs & _).
    apply IH2 in Hk as (st2 & Hk2 & Hs2); [|done].
    exists st2. split; [done|]. by etrans.
Qed.

End Matcher.

(** ** The scanner and the substitution *)

Section Scanner.
Context {RT : Runtime}.

Lemma scan_skip fl r prev c s :
  match_at fl r prev (c :: s) = None ->
  scan fl r prev (c :: s) = Skip c :: scan fl r (Some c) s.
Proof. intros H. rewrite scan_equation_2, H. reflexivity. Qed.

Lemma scan_hit fl r prev s m :
  match_at fl r prev s = Some m ->
  (length (m_rest m) < length s)%nat ->
  scan fl r prev s = Hit m :: scan fl r (m_prev m) (m_rest m).
Proof.
  intros H Hlen. destruct s as [|c s]; [simpl in Hlen; lia|].
  rewrite scan_equation_2, H.
  destruct (lt_dec _ _); [reflexivity|contradiction].
Qed.

Lemma scan_nomatch fl r prev s :
  Forall (λ pl, match_at fl r pl.1 pl.2 = None) (positions prev s) ->
  scan fl r prev s = Skip <$> s.
Proof.
  revert prev. induction s as [|c s IH]; intros prev H.
  - by rewrite scan_equation_1.
  - simpl in H. apply Forall_cons in H as [H1 H2]. simpl in H1.
    rewrite scan_skip by done. rewrite fmap_cons. f_equal. by apply IH.
Qed.

Lemma splice_skip f s : splice f (Skip <$> s) = s.
Proof.
  induction s as [|c s IH]; [done|].
  rewrite fmap_cons. simpl. by rewrite IH.
Qed.

Lemma expand_skip repl s : expand repl (Skip <$> s) = ret s.
Proof.
  induction s as [|c s IH]; [done|].
  rewrite fmap_cons. simpl. by rewrite IH, bind_ret_l.
Qed.

Lemma expand_pure repl f items :
  (∀ m, repl m = ret (f m)) ->
  expand repl items = ret (splice f items).
Proof.
  intros Hf. induction items as [|[c|m] items IH]; simpl; [done| |].
  - rewrite IH, bind_ret_l. reflexivity.
  - rewrite Hf, bind_ret_l, IH, bind_ret_l. reflexivity.
Qed.

Lemma re_sub_pure fl r repl f s :
  (∀ m, repl m = ret (f m)) ->
  re_sub fl r repl s = ret (splice f (scan fl r None s)).
Proof. intros. unfold re_sub. by apply expand_pure. Qed.

Lemma re_sub_nomatch fl r repl s :
  Forall (λ pl, match_at fl r pl.1 pl.2 = None) (positions None s) ->
  re_sub fl r repl s = ret s.
Proof.
  intros H. unfold re_sub. rewrite scan_nomatch by done. apply expand_skip.
Qed.

Lemma match_at_inv fl r prev s m :
  match_at fl r prev s = Some m ->
  m_rest m `suffix_of` s ∧ ∀ P, Forall P s -> groups_ok P (m_groups m).
Proof.
  intros H. apply rmatch_inv in H as (st' & [= ->] & Hs & Hg). simpl in *.
  split; [done|]. intros P HP. apply Hg; [done|]. apply map_Forall_empty.
Qed.

(** Every character passed through and every group captured comes from
    the subject. *)
Lemma scan_items_ok fl r (P : N -> Prop) prev s :
  Forall P s -> Forall (item_ok P) (scan fl r prev s).
Proof.
  remember (length s) as n eqn:Hn. revert prev s Hn.
  induction n as [n IH] using lt_wf_ind. intros prev [|c s] Hn HP.
  - rewrite scan_equation_1. constructor.
  - rewrite scan_equation_2.
    assert (Hskip : Forall (item_ok P) (Skip c :: scan fl r (Some c) s)).
    { apply Forall_cons in HP as [Hc HP].
      constructor; [exact Hc|]. eapply IH; [|reflexivity|done].
      subst n. simpl. lia. }
    destruct (match_at fl r prev (c :: s)) as [m|] eqn:E; [|exact Hskip].
    destruct (lt_dec _ _) as [Hlt|]; [|exact Hskip].
    apply match_at_inv in E as [Hs Hg].
    constructor; [by apply Hg|].
    eapply IH; [|reflexivity|by eapply Forall_suffix_of].
    subst n. exact Hlt.
Qed.

Lemma splice_Forall (P : N -> Prop) f items :
  (∀ m, groups_ok P (m_groups m) -> Forall P (f m)) ->
  Forall (item_ok P) items -> Forall P (splice f items).
Proof.
  intros Hf. induction 1 as [|[c|m] items Hit _ IH]; simpl.
  - constructor.
  - by constructor.
  - apply Forall_app. split; [by apply Hf|done].
Qed.

End Scanner.

(** ** The sample environment obeys the ASCII laws *)

Lemma sample_ascii_laws : UnicodeAscii Sample.runtime.
Proof.
  split; intros c Hc; simpl;
    unfold Sample.isalnum, Sample.isspace, Sample.isdecimal.
  - destruct (N.eqb_spec c 160); [lia|]. apply orb_false_r.
  - destruct (N.leb_spec 1632 c); [lia|]. apply orb_false_r.
  - destruct (N.leb_spec 1632 c); [lia|]. simpl.
    unfold ascii_isalnum. destruct (ascii_isdecimal c); simpl; [done|].
    apply orb_false_r.
Qed.

(** ** Styles *)

Section Styles.
Context {RT : Runtime}.

(** C10. [apply_ansi_style] never raises: for every text and style name
    it returns the ANSI prefix of the style, the text and the reset
    sequence ESC[0m; for a name that is not in the table the prefix is
    empty and the result is the text followed by the reset sequence. *)
Theorem apply_ansi_style_total (text style : list N) :
  apply_ansi_style text style
    = ret (dict_get ANSI_CODES style [] ++ text ++ ESC :: lit "[0m") ∧
  (ANSI_CODES !! style = None ->
   apply_ansi_style text style = ret (text ++ ESC :: lit "[0m")).
Proof.
  split; [apply apply_ansi_style_ret|].
  intros Hnone. rewrite apply_ansi_style_ret.
  unfold dict_get. rewrite Hnone. reflexivity.
Qed.

(** The table itself. *)
Lemma ANSI_CODES_table :
  map_to_list ANSI_CODES ≡ₚ [
    (lit "bold", ESC :: lit "[1m"); (lit "italic", ESC :: lit "[3m");
    (lit "underline", ESC :: lit "[4m"); (lit "reset", ESC :: lit "[0m");
    (lit "bold_italic", ESC :: lit "[1m" ++ ESC :: lit "[3m");
    (lit "bold_underline", ESC :: lit "[1m" ++ ESC :: lit "[4m");
    (lit "italic_underline", ESC :: lit "[3m" ++ ESC :: lit "[4m");
    (lit "bold_italic_underline",
       ESC :: lit "[1m" ++ ESC :: lit "[3m" ++ ESC :: lit "[4m");
    (lit "strikethrough", ESC :: lit "[9m");
    (lit "italic_bold_underline",
       ESC :: lit "[3m" ++ ESC :: lit "[1m" ++ ESC :: lit "[4m");
    (lit "double_underline", ESC :: lit "[21m");
    (lit "inverse", ESC :: lit "[7m"); (lit "hidden", ESC :: lit "[8m");
    (lit "fraktur", ESC :: lit "[20m"); (lit "normal", ESC :: lit "[22m");
    (lit "blink", ESC :: lit "[5m"); (lit "reverse", ESC :: lit "[7m")].
Proof.
  apply (bool_decide_unpack _). vm_compute. reflexivity.
Qed.

(** C4. [highlight_code] returns to its caller whatever pygments does:
    it never raises, and it returns the code unchanged when the language
    name is not resolved to a lexer or when highlighting fails. *)
Theorem highlight_code_fail_open (code lang : list N) :
  (∃ out, result (highlight_code code lang) = Return out) ∧
  (∀ e, get_lexer_by_name lang = Raise e ->
        highlight_code code lang
          = ([Ev_get_lexer_by_name lang], Return code)) ∧
  (∀ lx e, get_lexer_by_name lang = Return lx ->
           highlight code lx = Raise e ->
           highlight_code code lang
             = ([Ev_get_lexer_by_name lang; Ev_highlight code lx], Return code)).
Proof.
  unfold highlight_code, try_except, bind, call, ret, result.
  destruct (get_lexer_by_name lang) as [lx|e] eqn:E1; simpl.
  - destruct (highlight code lx) as [out|e] eqn:E2; simpl.
    + split; [by eexists|]. split; [discriminate|].
      intros lx' e [= <-] H. congruence.
    + split; [by eexists|]. split; [discriminate|].
      intros lx' e' [= <-] _. reflexivity.
  - split; [by eexists|]. split; [done|discriminate].
Qed.

End Styles.

(** The language name "xyzzy123" in an environment that does not know it. *)
Lemma highlight_code_xyzzy123 :
  highlight_code (RT := Sample.runtime) (lit "x = 1") (lit "xyzzy123")
  = ([Ev_get_lexer_by_name (lit "xyzzy123")], Return (lit "x = 1")).
Proof.
  apply (proj1 (proj2 (highlight_code_fail_open (RT := Sample.runtime)
                         (lit "x = 1") (lit "xyzzy123")))
           (OtherException (lit "ClassNotFound"))).
  reflexivity.
Defined.

(** ** The command line *)

Section CommandLine.
Context {RT : Runtime}.

(** C9. Run with fewer than two [argv] entries, the program prints the
    usage message and exits with status 1. *)
Theorem main_usage (argv : list (list N)) :
  (length argv < 2)%nat ->
  main argv = ([Ev_print usage], Raise (SystemExit 1)) ∧
  exit_code (main argv) = 1%Z.
Proof.
  intros Hlen. unfold main.
  destruct (Nat.ltb_spec (length argv) 2); [|lia].
  split; reflexivity.
Qed.

End CommandLine.

Lemma main_usage_witness :
  (length [lit "view"] < 2)%nat ∧
  main (RT := Sample.runtime) [lit "view"]
    = ([Ev_print usage], Raise (SystemExit 1)) ∧
  exit_code (main (RT := Sample.runtime) [lit "view"]) = 1%Z.
Proof.
  split; [simpl; lia|].
  apply (main_usage (RT := Sample.runtime) [lit "view"]). simpl. lia.
Defined.

(** ** Words *)

Section Words.
Context {RT : Runtime}.

Lemma split_from_tokens (cur s : list N) :
  Forall (λ c, uni_isspace c = false) cur ->
  Forall is_token (split_from cur s).
Proof.
  revert cur. induction s as [|c s IH]; intros cur Hcur; simpl.
  - destruct cur; [constructor|]. constructor; [done|constructor].
  - destruct (uni_isspace c) eqn:E.
    + destruct cur.
      * apply IH. constructor.
      * constructor; [done|]. apply IH. constructor.
    + apply IH. apply Forall_app. split; [done|].
      constructor; [done|constructor].
Qed.

Lemma str_split_tokens (s : list N) : Forall is_token (str_split s).
Proof. apply split_from_tokens. constructor. Qed.

Lemma split_from_word (cur w s : list N) :
  Forall (λ c, uni_isspace c = false) w ->
  split_from cur (w ++ s) = split_from (cur ++ w) s.
Proof.
  revert cur. induction w as [|c w IH]; intros cur Hw; simpl.
  - by rewrite app_nil_r.
  - apply Forall_cons in Hw as [Hc Hw]. rewrite Hc, IH by done.
    by rewrite <- app_assoc.
Qed.

Lemma split_from_space (cur : list N) (c : N) (s : list N) :
  uni_isspace c = true -> cur ≠ [] ->
  split_from cur (c :: s) = cur :: split_from [] s.
Proof. intros Hc Hne. simpl. rewrite Hc. by destruct cur. Qed.

Lemma split_join (ws : list (list N)) :
  uni_isspace 32 = true ->
  Forall is_token ws ->
  str_split (str_join (lit " ") ws) = ws.
Proof.
  intros Hsp. unfold str_split. induction 1 as [|w ws [Hne Hw] Hws IH].
  - reflexivity.
  - destruct ws as [|w' ws].
    + simpl. rewrite <- (app_nil_r w) at 1.
      rewrite split_from_word by done. simpl. by destruct w.
    + change (str_join (lit " ") (w :: w' :: ws))
        with (w ++ 32 :: str_join (lit " ") (w' :: ws)).
      rewrite split_from_word by done. rewrite app_nil_l.
      rewrite split_from_space by done. by rewrite IH.
Qed.

Lemma slice_to_pos {A} (n : Z) (l : list A) :
  (0 <= n)%Z -> slice_to n l = take (Z.to_nat n) l.
Proof. intros. unfold slice_to. destruct (Z.ltb_spec n 0); [lia|done]. Qed.

(** C3, amended. For a word limit N of at least 1 the truncation of
    [view_markdown] produces the first N whitespace-delimited tokens of
    the text joined by single spaces: exactly N tokens when the text has
    at least N, and all the tokens, in order, when it has fewer. *)
Theorem truncate_words_first_n {HA : UnicodeAscii RT} (content : list N) (n : Z) :
  (1 <= n)%Z ->
  let words := str_split content in
  let out := truncate_words content (Some n) in
  out = str_join (lit " ") (take (Z.to_nat n) words) ∧
  str_split out = take (Z.to_nat n) words ∧
  ((Z.to_nat n <= length words)%nat -> length (str_split out) = Z.to_nat n) ∧
  ((length words < Z.to_nat n)%nat ->
     str_split out = words ∧ out = str_join (lit " ") words).
Proof.
  intros Hn words out.
  assert (Hout : out = str_join (lit " ") (take (Z.to_nat n) words)).
  { unfold out, truncate_words. destruct (Z.eqb_spec n 0); [lia|].
    rewrite slice_to_pos by lia. reflexivity. }
  assert (Hsplit : str_split out = take (Z.to_nat n) words).
  { rewrite Hout. apply split_join.
    - rewrite isspace_ascii by lia. reflexivity.
    - apply Forall_take, str_split_tokens. }
  split; [done|]. split; [done|]. split.
  - intros Hlen. rewrite Hsplit, length_take. lia.
  - intros Hlen. rewrite Hsplit, Hout, take_ge by lia. done.
Qed.

End Words.

Lemma truncate_words_first_n_witness :
  (1 <= 2)%Z ∧
  truncate_words (RT := Sample.runtime) (lit "  one   two three ") (Some 2%Z)
    = lit "one two".
Proof.
  split; [lia|].
  apply (truncate_words_first_n (RT := Sample.runtime) (HA := sample_ascii_laws)
           (lit "  one   two three ") 2). lia.
Defined.

(** C3 as stated fails for the word limit 0: [if word_limit:] is false
    for 0 and the text is kept whole, where the first 0 tokens joined by
    spaces are the empty text. *)
Lemma truncate_words_zero :
  let content := lit "one two" in
  (0 <= length (str_split (RT := Sample.runtime) content))%nat ∧
  truncate_words (RT := Sample.runtime) content (Some 0%Z) = content ∧
  truncate_words (RT := Sample.runtime) content (Some 0%Z)
    ≠ str_join (lit " ") (take 0 (str_split (RT := Sample.runtime) content)).
Proof. vm_compute. split; [lia|]. split; [reflexivity|discriminate]. Qed.

(** ** Markup *)

Section Markup.
Context {RT : Runtime}.

Lemma no_line_starts_spec start s :
  no_line_starts start s = true ->
  Forall (λ pl, at_bol re_M pl.1 = true -> start pl.2 = false)
         (positions None s).
Proof.
  unfold no_line_starts. rewrite forallb_forall, Forall_forall.
  intros H pl Hin Hbol. apply list_elem_of_In, H in Hin.
  assert (at_line_start pl.1 = true) as E by (by destruct pl as [[c|] l]).
  rewrite E in Hin. simpl in Hin. by destruct (start pl.2).
Qed.

Lemma not_contains_spec pat s :
  contains pat s = false ->
  Forall (λ pl : option N * list N, starts_with pat pl.2 = false)
         (positions None s).
Proof.
  unfold contains. intros H. apply Forall_forall. intros pl Hin.
  apply list_elem_of_In in Hin. destruct (starts_with pat pl.2) eqn:E; [|done].
  assert (existsb (λ pl, starts_with pat pl.2) (positions None s) = true)
    by (apply existsb_exists; eauto).
  congruence.
Qed.

Lemma heading_nomatch p l :
  (at_bol re_M p = true -> starts_with (lit "#") l = false) ->
  match_at re_M re_heading p l = None.
Proof.
  unfold match_at, re_heading. eval_lits. simpl.
  destruct (at_bol re_M p); [|done].
  intros H. specialize (H eq_refl). destruct l as [|c l]; [done|].
  simpl in *. destruct (c =? 35); [done|reflexivity].
Qed.

Lemma bold_nomatch p l :
  starts_with (lit "**") l = false ->
  match_at no_flags re_bold p l = None.
Proof.
  unfold match_at, re_bold, rchar. eval_lits. simpl.
  destruct l as [|c [|c' l]]; simpl; [done|by destruct (c =? 42)|].
  destruct (c =? 42); [|done]. destruct (c' =? 42); [discriminate|done].
Qed.

Lemma italic_nomatch p l :
  starts_with (lit "_") l = false ->
  match_at no_flags re_italic p l = None.
Proof.
  unfold match_at, re_italic, rchar. eval_lits. simpl.
  destruct l as [|c l]; simpl; [done|].
  destruct (c =? 95); [discriminate|done].
Qed.

Lemma underline_nomatch p l :
  starts_with (lit "_") l = false ->
  match_at no_flags re_underline p l = None.
Proof.
  unfold match_at, re_underline, rchar. eval_lits. simpl.
  destruct l as [|c l]; simpl; [done|].
  destruct (c =? 95); [discriminate|done].
Qed.

Lemma strike_nomatch p l :
  starts_with (lit "~~") l = false ->
  match_at no_flags re_strike p l = None.
Proof.
  unfold match_at, re_strike, rchar. eval_lits. simpl.
  destruct l as [|c [|c' l]]; simpl; [done|by destruct (c =? 126)|].
  destruct (c =? 126); [|done]. destruct (c' =? 126); [discriminate|done].
Qed.

Lemma quote_nomatch p l :
  (at_bol re_M p = true -> starts_with (lit "> ") l = false) ->
  match_at re_M re_quote p l = None.
Proof.
  unfold match_at, re_quote, rchar. eval_lits. simpl.
  destruct (at_bol re_M p); [|done].
  intros H. specialize (H eq_refl).
  destruct l as [|c [|c' l]]; simpl in *; [done|by destruct (c =? 62)|].
  destruct (c =? 62); [|done]. destruct (c' =? 32); [discriminate|done].
Qed.

Lemma ulist_nomatch p l :
  (at_bol re_M p = true -> starts_ulist l = false) ->
  match_at re_M re_ulist p l = None.
Proof.
  unfold match_at, re_ulist, starts_ulist, plus, cs_space. eval_lits. simpl.
  destruct (at_bol re_M p); [|done].
  intros H. specialize (H eq_refl).
  destruct l as [|c [|w l]]; simpl in *; [done| |].
  - by destruct ((42 <=? c) && (c <=? 43)).
  - destruct ((42 <=? c) && (c <=? 43)); [|done]. simpl in H.
    rewrite H. reflexivity.
Qed.

Lemma fence_nomatch p l :
  starts_with (lit "```") l = false ->
  match_at re_S re_fence p l = None.
Proof.
  unfold match_at, re_fence, rchar. eval_lits. simpl.
  destruct l as [|c [|c' [|c'' l]]]; simpl; [done| | |].
  - by destruct (c =? 96).
  - destruct (c =? 96); [|done]. by destruct (c' =? 96).
  - destruct (c =? 96); [|done]. destruct (c' =? 96); [|done].
    destruct (c'' =? 96); [discriminate|done].
Qed.

(** The digits of [\d+] followed by something else than a period and
    whitespace: giving digits back does not help. *)
Lemma digits_then_none {R} {HA : UnicodeAscii RT} lo prev s
    (k : option N -> list N -> option R) :
  (∀ p b, dot_space b = false -> k p b = None) ->
  dot_space (after_digits s) = false ->
  rep_greedy uni_isdecimal lo None prev s k = None.
Proof.
  intros Hk. revert lo prev. induction s as [|c s IH]; intros lo prev Hs.
  - simpl. destruct lo; [|done]. by apply Hk.
  - simpl in *. destruct (uni_isdecimal c) eqn:Hc; simpl.
    + rewrite IH by done. destruct lo; [|done]. apply Hk.
      unfold dot_space. destruct s as [|w s]; [done|].
      eval_lits. destruct (N.eqb_spec c 46) as [->|]; [|done].
      rewrite isdecimal_ascii in Hc by lia. discriminate.
    + destruct lo; [|done]. by apply Hk.
Qed.

Lemma olist_nomatch {HA : UnicodeAscii RT} p l :
  (at_bol re_M p = true -> starts_olist l = false) ->
  match_at re_M re_olist p l = None.
Proof.
  unfold match_at, re_olist, plus, cs_digit. simpl.
  destruct (at_bol re_M p); [|done].
  intros H. specialize (H eq_refl).
  destruct l as [|c l]; [done|]. unfold starts_olist in H.
  destruct (uni_isdecimal c) eqn:Hc.
  - apply digits_then_none; [|done].
    intros p' b Hb. unfold rchar, cs_space. eval_lits. simpl.
    unfold dot_space in Hb. eval_lits.
    destruct b as [|d [|w b]]; simpl; [done|by destruct (d =? 46)|].
    destruct (d =? 46); [|done]. simpl in Hb. rewrite Hb. reflexivity.
  - simpl. rewrite Hc. reflexivity.
Qed.

End Markup.

(** ** The passes of [render_markdown] *)

Section Passes.
Context {RT : Runtime}.

Lemma styled_span n style m : styled n style m = ret (span style n m).
Proof. apply apply_ansi_style_ret. Qed.

Lemma style_stages_pure (text : list N) :
  style_stages text
  = ret (sub_olist (sub_ulist (sub_quote (sub_strike (sub_underline
          (sub_italic (sub_bold (sub_heading text)))))))).
Proof.
  unfold style_stages.
  rewrite (re_sub_pure _ _ _ (span "bold" 2)), bind_ret_l
    by apply styled_span.
  rewrite (re_sub_pure _ _ _ (span "bold" 1)), bind_ret_l
    by apply styled_span.
  rewrite (re_sub_pure _ _ _ (span "italic" 1)), bind_ret_l
    by apply styled_span.
  rewrite (re_sub_pure _ _ _ (span "underline" 1)), bind_ret_l
    by apply styled_span.
  rewrite (re_sub_pure _ _ _ (span "strikethrough" 1)), bind_ret_l
    by apply styled_span.
  rewrite (re_sub_pure _ _ _ (span "italic" 1)), bind_ret_l
    by apply styled_span.
  rewrite (re_sub_pure _ _ _ (λ m, lit "- " ++ fmt (group m 1))), bind_ret_l
    by done.
  rewrite (re_sub_pure _ _ _ (λ m, lit "1. " ++ fmt (group m 1))) by done.
  reflexivity.
Qed.

Lemma Forall_inserted (P : N -> Prop) (l : list N) :
  forallb (λ c, bool_decide (c ∈ inserted)) l = true ->
  Forall P inserted -> Forall P l.
Proof.
  rewrite forallb_forall, !Forall_forall. intros Hl HP c Hc.
  apply HP. apply list_elem_of_In, Hl in Hc. by apply bool_decide_eq_true in Hc.
Qed.

Lemma fmt_group_Forall (P : N -> Prop) m n :
  Forall P inserted -> groups_ok P (m_groups m) -> Forall P (fmt (group m n)).
Proof.
  intros HP Hg. unfold fmt, group.
  destruct (m_groups m !! n) as [g|] eqn:E; simpl.
  - by apply (Hg n g).
  - by apply Forall_inserted.
Qed.

Lemma span_Forall (P : N -> Prop) style n m :
  forallb (λ c, bool_decide (c ∈ inserted))
          (dict_get ANSI_CODES (lit style) []) = true ->
  Forall P inserted -> groups_ok P (m_groups m) -> Forall P (span style n m).
Proof.
  intros Hs HP Hg. unfold span. rewrite !Forall_app. split_and!.
  - by apply Forall_inserted.
  - by apply fmt_group_Forall.
  - by apply Forall_inserted.
Qed.

Lemma prefixed_Forall (P : N -> Prop) pre n m :
  forallb (λ c, bool_decide (c ∈ inserted)) pre = true ->
  Forall P inserted -> groups_ok P (m_groups m) ->
  Forall P (pre ++ fmt (group m n)).
Proof.
  intros Hs HP Hg. rewrite Forall_app. split.
  - by apply Forall_inserted.
  - by apply fmt_group_Forall.
Qed.

(** A pass only adds characters of [inserted]. *)
Lemma sub_heading_Forall (P : N -> Prop) s :
  Forall P inserted -> Forall P s -> Forall P (sub_heading s).
Proof.
  intros HP Hs. apply splice_Forall; [|by apply scan_items_ok].
  intros m Hg. by apply span_Forall.
Qed.

Lemma sub_bold_Forall (P : N -> Prop) s :
  Forall P inserted -> Forall P s -> Forall P (sub_bold s).
Proof.
  intros HP Hs. apply splice_Forall; [|by apply scan_items_ok].
  intros m Hg. by apply span_Forall.
Qed.

Lemma sub_italic_Forall (P : N -> Prop) s :
  Forall P inserted -> Forall P s -> Forall P (sub_italic s).
Proof.
  intros HP Hs. apply splice_Forall; [|by apply scan_items_ok].
  intros m Hg. by apply span_Forall.
Qed.

Lemma sub_underline_Forall (P : N -> Prop) s :
  Forall P inserted -> Forall P s -> Forall P (sub_underline s).
Proof.
  intros HP Hs. apply splice_Forall; [|by apply scan_items_ok].
  intros m Hg. by apply span_Forall.
Qed.

Lemma sub_strike_Forall (P : N -> Prop) s :
  Forall P inserted -> Forall P s -> Forall P (sub_strike s).
Proof.
  intros HP Hs. apply splice_Forall; [|by apply scan_items_ok].
  intros m Hg. by apply span_Forall.
Qed.

Lemma sub_quote_Forall (P : N -> Prop) s :
  Forall P inserted -> Forall P s -> Forall P (sub_quote s).
Proof.
  intros HP Hs. apply splice_Forall; [|by apply scan_items_ok].
  intros m Hg. by apply span_Forall.
Qed.

Lemma sub_ulist_Forall (P : N -> Prop) s :
  Forall P inserted -> Forall P s -> Forall P (sub_ulist s).
Proof.
  intros HP Hs. apply splice_Forall; [|by apply scan_items_ok].
  intros m Hg. by apply prefixed_Forall.
Qed.

Lemma sub_olist_Forall (P : N -> Prop) s :
  Forall P inserted -> Forall P s -> Forall P (sub_olist s).
Proof.
  intros HP Hs. apply splice_Forall; [|by apply scan_items_ok].
  intros m Hg. by apply prefixed_Forall.
Qed.

Lemma findall_nomatch fl r s :
  Forall (λ pl, match_at fl r pl.1 pl.2 = None) (positions None s) ->
  re_findall fl r s = [].
Proof.
  intros H. unfold re_findall. rewrite scan_nomatch by done.
  clear H. induction s as [|c s IH]; [done|]. rewrite fmap_cons. exact IH.
Qed.

End Passes.

(** ** Text without markup *)

Section Plain.
Context {RT : Runtime} {HA : UnicodeAscii RT}.

Lemma splice_nomatch fl r f s :
  Forall (λ pl, match_at fl r pl.1 pl.2 = None) (positions None s) ->
  splice f (scan fl r None s) = s.
Proof. intros H. rewrite scan_nomatch by done. apply splice_skip. Qed.

Lemma sub_heading_id s :
  no_line_starts (starts_with (lit "#")) s = true -> sub_heading s = s.
Proof.
  intros H%no_line_starts_spec. apply splice_nomatch.
  eapply Forall_impl; [exact H|]. intros [p l]. apply heading_nomatch.
Qed.

Lemma sub_bold_id s : contains (lit "**") s = false -> sub_bold s = s.
Proof.
  intros H%not_contains_spec. apply splice_nomatch.
  eapply Forall_impl; [exact H|]. intros [p l]. apply bold_nomatch.
Qed.

Lemma sub_italic_id s : contains (lit "_") s = false -> sub_italic s = s.
Proof.
  intros H%not_contains_spec. apply splice_nomatch.
  eapply Forall_impl; [exact H|]. intros [p l]. apply italic_nomatch.
Qed.

Lemma sub_underline_id s : contains (lit "_") s = false -> sub_underline s = s.
Proof.
  intros H%not_contains_spec. apply splice_nomatch.
  eapply Forall_impl; [exact H|]. intros [p l]. apply underline_nomatch.
Qed.

Lemma sub_strike_id s : contains (lit "~~") s = false -> sub_strike s = s.
Proof.
  intros H%not_contains_spec. apply splice_nomatch.
  eapply Forall_impl; [exact H|]. intros [p l]. apply strike_nomatch.
Qed.

Lemma sub_quote_id s :
  no_line_starts (starts_with (lit "> ")) s = true -> sub_quote s = s.
Proof.
  intros H%no_line_starts_spec. apply splice_nomatch.
  eapply Forall_impl; [exact H|]. intros [p l]. apply quote_nomatch.
Qed.

Lemma sub_ulist_id s : no_line_starts starts_ulist s = true -> sub_ulist s = s.
Proof.
  intros H%no_line_starts_spec. apply splice_nomatch.
  eapply Forall_impl; [exact H|]. intros [p l]. apply ulist_nomatch.
Qed.

Lemma sub_olist_id s : no_line_starts starts_olist s = true -> sub_olist s = s.
Proof.
  intros H%no_line_starts_spec. apply splice_nomatch.
  eapply Forall_impl; [exact H|]. intros [p l]. apply olist_nomatch.
Qed.

Lemma fence_stage_id s : contains (lit "```") s = false -> fence_stage s = ret s.
Proof.
  intros H%not_contains_spec. unfold fence_stage.
  rewrite findall_nomatch; [done|].
  eapply Forall_impl; [exact H|]. intros [p l]. apply fence_nomatch.
Qed.

Lemma render_markdown_inert s : inert s = true -> render_markdown s = ret s.
Proof.
  unfold inert. rewrite !andb_true_iff, !negb_true_iff.
  intros [[[[[[[H1 H2] H3] H4] H5] H6] H7] H8].
  unfold render_markdown. rewrite style_stages_pure, bind_ret_l.
  rewrite sub_heading_id, sub_bold_id, sub_italic_id, sub_underline_id,
    sub_strike_id, sub_quote_id, sub_ulist_id, sub_olist_id by done.
  by apply fence_stage_id.
Qed.

Lemma no_line_starts_mono (start start' : list N -> bool) s :
  (∀ l, start' l = true -> start l = true) ->
  no_line_starts start s = true -> no_line_starts start' s = true.
Proof.
  intros Hm. unfold no_line_starts. rewrite !forallb_forall.
  intros H pl Hin. specialize (H pl Hin).
  destruct (at_line_start pl.1); [|done]. simpl in *.
  destruct (start' pl.2) eqn:E; [|done]. by rewrite (Hm _ E) in H.
Qed.

Lemma starts_ulist_marker l :
  starts_ulist l = true -> starts_list_marker l = true.
Proof.
  unfold starts_ulist, starts_list_marker. eval_lits.
  destruct l as [|m [|w l]]; [done..|].
  rewrite !andb_true_iff, !orb_true_iff, !N.leb_le, !N.eqb_eq.
  intros [[H1 H2] H3]. split; [lia|done].
Qed.

Lemma starts_olist_ordinal l :
  starts_olist l = true -> starts_ordinal l = true.
Proof.
  unfold starts_olist, starts_ordinal. destruct l as [|c l]; [done|].
  rewrite !andb_true_iff. intros [H1 H2]. split; [done|].
  unfold dot_space in H2. eval_lits.
  destruct (after_digits (c :: l)) as [|d [|w b]]; [done..|].
  simpl. apply andb_true_iff in H2 as [H2 _]. by rewrite H2.
Qed.

Lemma plain_text_inert s : plain_text s = true -> inert s = true.
Proof.
  unfold plain_text, inert. rewrite !andb_true_iff.
  intros [[[[[[[H1 H2] H3] H4] H5] H6] H7] H8]. split_and!; try done.
  - eapply no_line_starts_mono; [|exact H3]. apply starts_ulist_marker.
  - eapply no_line_starts_mono; [|exact H4]. apply starts_olist_ordinal.
Qed.

(** C1. On text without Markdown markup (no line starting with '#',
    "> ", a list marker or digits and a period, and no occurrence of
    "**", '_', "~~" or a backtick fence) [render_markdown] returns its
    input unchanged, and calls no library. *)
Theorem render_markdown_plain (text : list N) :
  plain_text text = true -> render_markdown text = ret text.
Proof. intros H. by apply render_markdown_inert, plain_text_inert. Qed.

End Plain.

Lemma render_markdown_plain_witness :
  let text := lit "Notes - part 1: a*b > c" ++ [NL] ++ lit " # not a heading"
              ++ [NL] ++ lit "pi is 3.14, ~ `x`" in
  plain_text (RT := Sample.runtime) text = true ∧
  render_markdown (RT := Sample.runtime) text = ret text.
Proof.
  split; [vm_compute; reflexivity|].
  apply (render_markdown_plain (RT := Sample.runtime) (HA := sample_ascii_laws)).
  vm_compute. reflexivity.
Defined.

(** ** Text without backticks *)

Section Backticks.
Context {RT : Runtime}.

Lemma contains_char (d : N) (s : list N) :
  contains [d] s = false <-> Forall (λ c, c ≠ d) s.
Proof.
  unfold contains. generalize (@None N).
  induction s as [|c s IH]; intros p; simpl.
  - split; [constructor|done].
  - rewrite andb_true_r, orb_false_iff, IH, Forall_cons, N.eqb_neq. done.
Qed.

Lemma no_char_no_prefix (d : N) (pat s : list N) :
  Forall (λ c, c ≠ d) s -> contains (d :: pat) s = false.
Proof.
  unfold contains. intros H. generalize (@None N).
  induction H as [|c s Hc Hs IH]; intros p; simpl; [done|].
  rewrite IH, orb_false_r. destruct (N.eqb_spec c d); done.
Qed.

(** C8. On text without a backtick the fenced-block pass substitutes
    nothing: the text that the styling passes hand to it has no backtick,
    no block is found in it, and it comes out unchanged, without a call
    to the highlighter. *)
Theorem no_backtick_no_fence (text : list N) :
  contains (lit "`") text = false ->
  ∃ styled,
    style_stages text = ret styled ∧
    contains (lit "`") styled = false ∧
    re_findall re_S re_fence styled = [] ∧
    fence_stage styled = ret styled ∧
    render_markdown text = ret styled.
Proof.
  eval_lits. intros H%contains_char. eexists. split; [apply style_stages_pure|].
  match goal with |- contains _ ?t = _ ∧ _ =>
    assert (Ht : Forall (λ c, c ≠ 96) t) end.
  { assert (Forall (λ c, c ≠ 96) inserted)
      by (apply (bool_decide_unpack _); vm_compute; reflexivity).
    by apply sub_olist_Forall, sub_ulist_Forall, sub_quote_Forall,
      sub_strike_Forall, sub_underline_Forall, sub_italic_Forall,
      sub_bold_Forall, sub_heading_Forall. }
  assert (Hf : fence_stage (sub_olist (sub_ulist (sub_quote (sub_strike
                 (sub_underline (sub_italic (sub_bold (sub_heading text))))))))
               = ret (sub_olist (sub_ulist (sub_quote (sub_strike
                 (sub_underline (sub_italic (sub_bold (sub_heading text))))))))).
  { apply fence_stage_id. eval_lits. by apply no_char_no_prefix. }
  split; [by apply contains_char|]. split; [|split; [exact Hf|]].
  - apply findall_nomatch.
    eapply Forall_impl;
      [apply not_contains_spec, (no_char_no_prefix 96 [96; 96]), Ht|].
    intros [p l]. apply fence_nomatch.
  - unfold render_markdown. by rewrite style_stages_pure, bind_ret_l.
Qed.

End Backticks.

Lemma no_backtick_no_fence_witness :
  contains (lit "`") (lit "# Title **b** _i_ ~~s~~") = false ∧
  ∃ styled,
    style_stages (RT := Sample.runtime) (lit "# Title **b** _i_ ~~s~~")
      = ret styled ∧
    contains (lit "`") styled = false ∧
    re_findall re_S (re_fence (RT := Sample.runtime)) styled = [] ∧
    fence_stage (RT := Sample.runtime) styled = ret styled ∧
    render_markdown (RT := Sample.runtime) (lit "# Title **b** _i_ ~~s~~")
      = ret styled.
Proof.
  split; [vm_compute; reflexivity|].
  apply (no_backtick_no_fence (RT := Sample.runtime)).
  vm_compute. reflexivity.
Defined.

(** ** Successful repetitions *)

Section Repetitions.

Lemma lastp_app prev t1 t2 : lastp prev (t1 ++ t2) = lastp (lastp prev t1) t2.
Proof. apply foldl_app. Qed.

Lemma lastp_snoc prev t c : lastp prev (t ++ [c]) = Some c.
Proof. by rewrite lastp_app. Qed.

(** A lazy star reads on while the rest of the pattern fails. *)
Lemma rep_lazy_skip {R} ok prev t s (k : option N -> list N -> option R) :
  Forall (λ c, ok c = true) t ->
  (∀ p t2, t2 ≠ [] -> t2 `suffix_of` t -> k p (t2 ++ s) = None) ->
  rep_lazy ok 0 None prev (t ++ s) k = rep_lazy ok 0 None (lastp prev t) s k.
Proof.
  intros Hok. revert prev. induction Hok as [|c t Hc Ht IH]; intros prev Hk.
  - reflexivity.
  - assert (H0 : k prev (c :: t ++ s) = None) by (by apply (Hk prev (c :: t))).
    change ((c :: t) ++ s) with (c :: (t ++ s)). simpl rep_lazy at 1.
    rewrite H0, Hc. simpl.
    apply IH. intros p t2 Hne Hs. apply Hk; [done|]. by apply suffix_cons_r.
Qed.

Lemma rep_lazy_stop {R} ok prev s (k : option N -> list N -> option R) r :
  k prev s = Some r -> rep_lazy ok 0 None prev s k = Some r.
Proof. intros H. destruct s; simpl; by rewrite H. Qed.

(** A greedy repetition keeps all it can read when the rest of the
    pattern matches after it. *)
Lemma rep_greedy_take {R} ok lo prev t s (k : option N -> list N -> option R) r :
  Forall (λ c, ok c = true) t ->
  (lo <= length t)%nat ->
  (∀ c, head s = Some c -> ok c = false) ->
  k (lastp prev t) s = Some r ->
  rep_greedy ok lo None prev (t ++ s) k = Some r.
Proof.
  intros Hok. revert lo prev.
  induction Hok as [|c t Hc Ht IH]; intros lo prev Hlo Hs Hk.
  - simpl in *. assert (lo = 0%nat) as -> by lia.
    destruct s as [|c s]; simpl; [done|]. by rewrite (Hs c).
  - change ((c :: t) ++ s) with (c :: (t ++ s)). simpl rep_greedy.
    rewrite Hc. simpl. rewrite (IH (Nat.pred lo) (Some c)); [done| |done..].
    simpl in Hlo. lia.
Qed.

Lemma rmatch_needs_char fl r d st k :
  needs_char r d = true ->
  Forall (λ c, c ≠ d) (m_rest st) ->
  rmatch fl r st k = None.
Proof.
  revert st k. induction r as [cs| |g lo hi cs|r IH|n r IH|r1 IH1 r2 IH2];
    intros st k; simpl; try discriminate.
  - destruct cs; try discriminate. intros ->%N.eqb_eq Hh.
    destruct (m_rest st) as [|c' s']; [done|].
    apply Forall_cons in Hh as [Hh _]. simpl.
    destruct (N.eqb_spec c' d); [congruence|done].
  - intros H Hh. by apply IH.
  - intros H Hh. apply orb_true_iff in H as [H|H]; [by apply IH1|].
    destruct (rmatch fl r1 st _) as [m|] eqn:E; [|done].
    apply rmatch_inv in E as (st1 & Hk & Hs & _).
    rewrite IH2 in Hk; [done..|]. by eapply Forall_suffix_of.
Qed.

End Repetitions.

(** ** Fenced blocks *)

Lemma take_consumed (a b : list N) :
  take (length (a ++ b) - length b) (a ++ b) = a.
Proof.
  rewrite length_app. replace (length a + length b - length b)%nat
    with (length a) by lia. apply take_app_length.
Qed.

Section Fences.
Context {RT : Runtime} {HA : UnicodeAscii RT}.

Lemma highlight_code_calls code lang :
  ∃ out, highlight_code code lang = (highlight_calls code lang, Return out).
Proof.
  unfold highlight_code, highlight_calls, try_except, bind, call, ret.
  destruct (get_lexer_by_name lang) as [lx|e]; simpl; [|by eexists].
  destruct (highlight code lx) as [out|e]; simpl; by eexists.
Qed.

(** The loop over the blocks calls the highlighter once for each block,
    in order. *)
Lemma highlight_blocks_calls code_blocks text :
  trace (highlight_blocks code_blocks text)
  = flat_map (λ b, highlight_calls b.2 (lang_or_plaintext b.1)) code_blocks
  ∧ ∃ out, result (highlight_blocks code_blocks text) = Return out.
Proof.
  revert text. induction code_blocks as [|[lang code] bs IH]; intros text.
  - split; [done|by eexists].
  - simpl highlight_blocks.
    destruct (highlight_code_calls code (lang_or_plaintext lang)) as [out Hh].
    unfold lang_or_plaintext in Hh. rewrite Hh. unfold bind.
    match goal with |- context [highlight_blocks bs ?t] =>
      destruct (IH t) as [Ht [out' Hr]];
      destruct (highlight_blocks bs t) as [t' r'] end.
    unfold trace, result in *. simpl in *. subst. split; [done|by eexists].
Qed.

Lemma fence_untagged_match p body post :
  Forall (λ c, c ≠ 96) body ->
  match_at re_S re_fence p (lit "```" ++ NL :: body ++ lit "```" ++ post)
  = Some {| m_prev := Some 96; m_rest := post;
            m_groups := <[ 2%nat := body ]> ∅ |}.
Proof.
  intros Hb. unfold match_at, re_fence, rchar, plus, cs_word, lazy_star.
  eval_lits. simpl.
  rewrite (isalnum_ascii NL) by (unfold NL; lia). simpl.
  rewrite rep_lazy_skip.
  - apply rep_lazy_stop. simpl. by rewrite take_consumed.
  - apply Forall_true. done.
  - intros q [|c t2] Hne Hs; [done|]. simpl.
    eapply Forall_suffix_of in Hb; [|exact Hs].
    apply Forall_cons in Hb as [Hc _].
    destruct (N.eqb_spec c 96); done.
Qed.

(** A block whose opening fence has no language tag is found with the
    empty tag and its body. *)
Lemma findall_untagged_fence body :
  Forall (λ c, c ≠ 96) body ->
  re_findall re_S re_fence (lit "```" ++ NL :: body ++ lit "```")
  = [([], body)].
Proof.
  intros Hb. unfold re_findall.
  pose proof (fence_untagged_match None body [] Hb) as Hm.
  rewrite app_nil_r in Hm. erewrite scan_hit; [|exact Hm|].
  - simpl. rewrite scan_equation_1. simpl. unfold group. simpl.
    rewrite lookup_insert_ne, lookup_empty, lookup_insert_eq by done. done.
  - simpl. eval_lits. simpl. lia.
Qed.

Lemma render_markdown_fence_stage text styled :
  style_stages text = ret styled ->
  render_markdown text = fence_stage styled.
Proof. intros H. unfold render_markdown. by rewrite H, bind_ret_l. Qed.

(** C7. For every fenced block without a language tag that the fenced
    pass finds in the styled text, [render_markdown] asks pygments for
    the lexer named "plaintext" and, when there is one, highlights the
    body of the block with it. *)
Theorem untagged_fence_plaintext (text styled code : list N) :
  style_stages text = ret styled ->
  ([], code) ∈ re_findall re_S re_fence styled ->
  Ev_get_lexer_by_name (lit "plaintext") ∈ trace (render_markdown text) ∧
  ∀ lx, get_lexer_by_name (lit "plaintext") = Return lx ->
        Ev_highlight code lx ∈ trace (render_markdown text).
Proof.
  intros Hs Hin. rewrite (render_markdown_fence_stage _ _ Hs).
  unfold fence_stage.
  destruct (highlight_blocks_calls (re_findall re_S re_fence styled) styled)
    as [-> _].
  assert (Hsub : ∀ ev, ev ∈ highlight_calls code (lit "plaintext") ->
            ev ∈ flat_map (λ b, highlight_calls b.2 (lang_or_plaintext b.1))
                   (re_findall re_S re_fence styled)).
  { intros ev Hev. apply list_elem_of_In, in_flat_map.
    exists ([], code). split; by apply list_elem_of_In. }
  split.
  - apply Hsub. unfold highlight_calls. by left.
  - intros lx Hlx. apply Hsub. unfold highlight_calls. rewrite Hlx.
    right. by left.
Qed.

End Fences.

Lemma untagged_fence_plaintext_witness :
  let text := lit "```" ++ [NL] ++ lit "x = 1" ++ [NL] ++ lit "```" in
  style_stages (RT := Sample.runtime) text = ret text ∧
  (([], lit "x = 1" ++ [NL])
     ∈ re_findall re_S (re_fence (RT := Sample.runtime)) text) ∧
  Ev_get_lexer_by_name (lit "plaintext")
    ∈ trace (render_markdown (RT := Sample.runtime) text) ∧
  ∀ lx, get_lexer_by_name (lit "plaintext") = Return lx ->
        Ev_highlight (lit "x = 1" ++ [NL]) lx
          ∈ trace (render_markdown (RT := Sample.runtime) text).
Proof.
  assert (H1 : style_stages (RT := Sample.runtime)
                 (lit "```" ++ [NL] ++ lit "x = 1" ++ [NL] ++ lit "```")
               = ret (lit "```" ++ [NL] ++ lit "x = 1" ++ [NL] ++ lit "```"))
    by (vm_compute; reflexivity).
  assert (H2 : ([], lit "x = 1" ++ [NL])
                 ∈ re_findall re_S (re_fence (RT := Sample.runtime))
                     (lit "```" ++ [NL] ++ lit "x = 1" ++ [NL] ++ lit "```"))
    by (vm_compute; left).
  split; [exact H1|]. split; [exact H2|].
  exact (untagged_fence_plaintext (RT := Sample.runtime) _ _ _ H1 H2).
Defined.

(** ** Bold spans *)

Section Bold.
Context {RT : Runtime} {HA : UnicodeAscii RT}.

Lemma bold_match p t post :
  Forall (λ c, c ≠ 42 ∧ c ≠ NL) t ->
  match_at no_flags re_bold p (lit "**" ++ t ++ lit "**" ++ post)
  = Some {| m_prev := Some 42; m_rest := post;
            m_groups := <[ 1%nat := t ]> ∅ |}.
Proof.
  intros Ht. unfold match_at, re_bold, rchar, lazy_star. eval_lits. simpl.
  rewrite rep_lazy_skip.
  - apply rep_lazy_stop. simpl. by rewrite take_consumed.
  - eapply Forall_impl; [exact Ht|]. intros c [_ Hc]. simpl.
    unfold is_nl. by destruct (N.eqb_spec c NL).
  - intros q [|c t2] Hne Hs; [done|]. simpl.
    eapply Forall_suffix_of in Ht; [|exact Hs].
    apply Forall_cons in Ht as [[Hc _] _].
    destruct (N.eqb_spec c 42); done.
Qed.

(** Text of one line has one line start. *)
Lemma no_nl_line_starts (start : list N -> bool) s :
  Forall (λ c, c ≠ NL) s -> start s = false ->
  no_line_starts start s = true.
Proof.
  intros Hs Hstart. unfold no_line_starts.
  assert (Haux : ∀ s', Forall (λ c, c ≠ NL) s' -> ∀ c, c ≠ NL ->
            forallb (λ pl, negb (at_line_start pl.1 && start pl.2))
                    (positions (Some c) s') = true).
  { induction 1 as [|c' s' Hc' Hs' IH]; intros c Hc; [done|].
    simpl. unfold is_nl at 1. destruct (N.eqb_spec c NL); [done|]. simpl.
    by apply IH. }
  destruct Hs as [|c s Hc Hs]; [done|]. simpl. rewrite Hstart. simpl.
  by apply Haux.
Qed.

Lemma fence_stage_one_line s :
  Forall (λ c, c ≠ NL) s -> fence_stage s = ret s.
Proof.
  intros Hs. unfold fence_stage. rewrite findall_nomatch; [done|].
  generalize (@None N). induction Hs as [|c s Hc Hs IH]; intros p; simpl.
  - constructor.
  - constructor; [|apply IH]. simpl.
    apply (rmatch_needs_char _ _ NL); [reflexivity|]. simpl. by constructor.
Qed.

Lemma scan_prefix_skip fl r d prev pre s :
  first_char r d = true -> Forall (λ c, c ≠ d) pre ->
  scan fl r prev (pre ++ s) = (Skip <$> pre) ++ scan fl r (lastp prev pre) s.
Proof.
  intros Hr Hp. revert prev. induction Hp as [|c pre Hc Hp IH]; intros prev.
  - reflexivity.
  - change ((c :: pre) ++ s) with (c :: (pre ++ s)). rewrite scan_skip.
    + rewrite fmap_cons, IH. reflexivity.
    + apply (rmatch_first_char _ _ d); [done|]. simpl. congruence.
Qed.

Lemma suffix_app_no_char (d : N) (r x q : list N) :
  (d :: r) `suffix_of` (x ++ q) -> Forall (λ c, c ≠ d) q ->
  ∃ x2, r = x2 ++ q ∧ (length x2 < length x)%nat.
Proof.
  intros [k Hk] Hq. apply app_eq_app in Hk as [l [[-> H]|[-> H]]].
  - destruct l as [|c l]; simpl in H.
    + subst q. apply Forall_cons in Hq as [Hq _]. done.
    + injection H as <- ->. exists l. split; [done|].
      rewrite length_app. simpl. lia.
  - subst q. apply Forall_app in Hq as [_ Hq].
    apply Forall_cons in Hq as [Hq _]. done.
Qed.

(** A pass whose matches begin and end with a character [d] leaves a
    tail without [d] in place. *)
Lemma splice_suffix_kept fl r f d q :
  first_char r d = true -> last_char r d = true ->
  Forall (λ c, c ≠ d) q ->
  ∀ x prev, ∃ x', splice f (scan fl r prev (x ++ q)) = x' ++ q.
Proof.
  intros Hf Hl Hq x. remember (length x) as n eqn:Hn. revert x Hn.
  induction n as [n IH] using lt_wf_ind. intros [|c x] Hn prev.
  - exists []. simpl. rewrite <- (app_nil_r q) at 1.
    rewrite (scan_prefix_skip _ _ d) by done.
    rewrite scan_equation_1, app_nil_r. apply splice_skip.
  - change ((c :: x) ++ q) with (c :: (x ++ q)). rewrite scan_equation_2.
    assert (Hskip : ∃ x', splice f (Skip c :: scan fl r (Some c) (x ++ q))
                          = x' ++ q).
    { destruct (IH (length x)) with (x := x) (prev := Some c) as [x' Hx'];
        [subst n; simpl; lia|done|].
      exists (c :: x'). simpl. by rewrite Hx'. }
    destruct (match_at fl r prev (c :: x ++ q)) as [m|] eqn:E; [|exact Hskip].
    destruct (lt_dec _ _) as [Hlt|]; [|exact Hskip].
    apply (rmatch_last_char _ _ d) in E as (st' & [= ->] & Hs); [|done].
    simpl in Hs. apply (suffix_app_no_char d _ (c :: x)) in Hs as (x2 & Hx2 & Hlen);
      [|done].
    rewrite Hx2.
    destruct (IH (length x2)) with (x := x2) (prev := m_prev m) as [x' Hx'];
      [subst n; exact Hlen|done|].
    exists (f m ++ x'). simpl. by rewrite Hx', app_assoc.
Qed.

Lemma splice_skip_app f pre items :
  splice f ((Skip <$> pre) ++ items) = pre ++ splice f items.
Proof.
  induction pre as [|c pre IH]; [done|].
  rewrite fmap_cons. simpl. by rewrite IH.
Qed.

Lemma splice_frame fl r f d pre x q :
  first_char r d = true -> last_char r d = true ->
  Forall (λ c, c ≠ d) pre -> Forall (λ c, c ≠ d) q ->
  ∃ x', splice f (scan fl r None (pre ++ x ++ q)) = pre ++ x' ++ q.
Proof.
  intros Hf Hl Hp Hq. rewrite (scan_prefix_skip _ _ d) by done.
  destruct (splice_suffix_kept fl r f d q Hf Hl Hq x (lastp None pre))
    as [x' Hx'].
  exists x'. by rewrite splice_skip_app, Hx'.
Qed.

Lemma Forall_contains (d : N) (s : list N) :
  contains [d] s = false -> Forall (λ c, c ≠ d) s.
Proof. apply contains_char. Qed.

(** C2, amended. For every t without '*' and without a newline,
    [render_markdown] applied to "**" + t + "**" returns a text that
    begins with the bold prefix ESC[1m, ends with the reset sequence
    ESC[0m and has no '*' left; when t has no '_' and no '~' either,
    the result is the prefix, t and the reset sequence. *)
Theorem bold_span (t : list N) :
  contains (lit "*") t = false ->
  contains [NL] t = false ->
  ∃ out,
    render_markdown (lit "**" ++ t ++ lit "**") = ret out ∧
    (ESC :: lit "[1m") `prefix_of` out ∧
    (ESC :: lit "[0m") `suffix_of` out ∧
    contains (lit "*") out = false ∧
    (contains (lit "_") t = false -> contains (lit "~") t = false ->
     out = (ESC :: lit "[1m") ++ t ++ ESC :: lit "[0m").
Proof.
  eval_lits. intros Hstar%Forall_contains Hnl%Forall_contains.
  set (P := [ESC; 91; 49; 109]). set (Q := [ESC; 91; 48; 109]).
  assert (HP : ∀ d, d ≠ ESC -> d ≠ 91 -> d ≠ 49 -> d ≠ 48 -> d ≠ 109 ->
                    Forall (λ c, c ≠ d) P ∧ Forall (λ c, c ≠ d) Q).
  { intros d ?????. split; repeat constructor; congruence. }
  (* the heading pass *)
  assert (H1 : sub_heading ([42; 42] ++ t ++ [42; 42]) = [42; 42] ++ t ++ [42; 42]).
  { apply sub_heading_id, no_nl_line_starts; [|done].
    rewrite !Forall_app. split_and!; [|done|]; by repeat constructor. }
  (* the bold pass *)
  assert (H2 : sub_bold ([42; 42] ++ t ++ [42; 42]) = P ++ t ++ Q).
  { unfold sub_bold.
    assert (Hm : match_at no_flags re_bold None ([42; 42] ++ t ++ [42; 42])
                 = Some {| m_prev := Some 42; m_rest := [];
                           m_groups := <[ 1%nat := t ]> ∅ |}).
    { pose proof (bold_match None t []) as Hm. eval_lits.
      rewrite app_nil_r in Hm. apply Hm.
      eapply Forall_impl; [apply Forall_and; split; [exact Hstar|exact Hnl]|].
      done. }
    erewrite scan_hit; [|exact Hm|simpl; lia].
    simpl. rewrite scan_equation_1. simpl. unfold span, fmt, group. simpl.
    rewrite lookup_insert_eq. simpl. rewrite app_nil_r. reflexivity. }
  (* the italic, underline and strikethrough passes *)
  destruct (splice_frame no_flags re_italic (span "italic" 1) 95 P t Q)
    as [x3 H3]; [done|done|apply HP; done|apply HP; done|].
  destruct (splice_frame no_flags re_underline (span "underline" 1) 95 P x3 Q)
    as [x4 H4]; [done|done|apply HP; done|apply HP; done|].
  destruct (splice_frame no_flags re_strike (span "strikethrough" 1) 126 P x4 Q)
    as [x5 H5]; [done|done|apply HP; done|apply HP; done|].
  fold (sub_italic (P ++ t ++ Q)) in H3.
  fold (sub_underline (P ++ x3 ++ Q)) in H4.
  fold (sub_strike (P ++ x4 ++ Q)) in H5.
  (* what the passes keep out of the text *)
  assert (Hkeep : ∀ d, d ≠ ESC -> d ≠ 91 -> d ≠ 49 -> d ≠ 48 -> d ≠ 109 ->
            Forall (λ c, c ≠ d) inserted -> Forall (λ c, c ≠ d) t ->
            Forall (λ c, c ≠ d) (P ++ x5 ++ Q)).
  { intros d ????? Hi Ht. rewrite <- H5, <- H4, <- H3.
    apply sub_strike_Forall, sub_underline_Forall, sub_italic_Forall; try done.
    rewrite !Forall_app. split_and!; [apply HP; done|done|apply HP; done]. }
  assert (Hnl5 : Forall (λ c, c ≠ NL) (P ++ x5 ++ Q)).
  { apply Hkeep; try done. apply (bool_decide_unpack _). vm_compute. done. }
  assert (Hstar5 : Forall (λ c, c ≠ 42) (P ++ x5 ++ Q)).
  { apply Hkeep; try done. apply (bool_decide_unpack _). vm_compute. done. }
  (* the block quote and list passes *)
  assert (H6 : sub_quote (P ++ x5 ++ Q) = P ++ x5 ++ Q).
  { apply sub_quote_id, no_nl_line_starts; done. }
  assert (H7 : sub_ulist (P ++ x5 ++ Q) = P ++ x5 ++ Q).
  { apply sub_ulist_id, no_nl_line_starts; done. }
  assert (H8 : sub_olist (P ++ x5 ++ Q) = P ++ x5 ++ Q).
  { apply sub_olist_id, no_nl_line_starts; [done|].
    unfold starts_olist. simpl. rewrite (isdecimal_ascii ESC) by (unfold ESC; lia).
    done. }
  exists (P ++ x5 ++ Q). split; [|split; [|split; [|split]]].
  - unfold render_markdown. rewrite style_stages_pure, bind_ret_l.
    rewrite H1, H2, H3, H4, H5, H6, H7, H8.
    by apply fence_stage_one_line.
  - by exists (x5 ++ Q).
  - exists (P ++ x5). by rewrite <- app_assoc.
  - by apply contains_char.
  - intros Hu%Forall_contains Ht%Forall_contains.
    assert (Hu2 : Forall (λ c, c ≠ 95) (P ++ t ++ Q)).
    { rewrite !Forall_app. split_and!; [apply HP; done|done|apply HP; done]. }
    assert (Ht2 : Forall (λ c, c ≠ 126) (P ++ t ++ Q)).
    { rewrite !Forall_app. split_and!; [apply HP; done|done|apply HP; done]. }
    rewrite <- H5, <- H4, <- H3.
    rewrite (sub_italic_id (P ++ t ++ Q)) by (by apply (no_char_no_prefix 95 [])).
    rewrite (sub_underline_id (P ++ t ++ Q))
      by (by apply (no_char_no_prefix 95 [])).
    rewrite (sub_strike_id (P ++ t ++ Q))
      by (by apply (no_char_no_prefix 126 [126])).
    reflexivity.
Qed.

End Bold.

Lemma bold_span_witness :
  contains (lit "*") (lit "so _very_ bold") = false ∧
  contains [NL] (lit "so _very_ bold") = false ∧
  ∃ out,
    render_markdown (RT := Sample.runtime)
      (lit "**" ++ lit "so _very_ bold" ++ lit "**") = ret out ∧
    (ESC :: lit "[1m") `prefix_of` out ∧
    (ESC :: lit "[0m") `suffix_of` out ∧
    contains (lit "*") out = false ∧
    (contains (lit "_") (lit "so _very_ bold") = false ->
     contains (lit "~") (lit "so _very_ bold") = false ->
     out = (ESC :: lit "[1m") ++ lit "so _very_ bold" ++ ESC :: lit "[0m").
Proof.
  split; [vm_compute; reflexivity|]. split; [vm_compute; reflexivity|].
  apply (bold_span (RT := Sample.runtime) (HA := sample_ascii_laws));
    vm_compute; reflexivity.
Defined.

(** C2 as stated fails when t has a newline: [.] does not match it, the
    bold pattern finds nothing and the text comes back with its
    asterisks.  And when t has markup of its own, t is not in the result
    as it was. *)
Lemma bold_span_newline :
  render_markdown (RT := Sample.runtime) (lit "**" ++ [NL] ++ lit "**")
    = ret (lit "**" ++ [NL] ++ lit "**") ∧
  contains (lit "*") [NL] = false ∧
  ¬ (ESC :: lit "[1m") `prefix_of` (lit "**" ++ [NL] ++ lit "**") ∧
  render_markdown (RT := Sample.runtime) (lit "**" ++ lit "_a_" ++ lit "**")
    = ret ((ESC :: lit "[1m") ++ (ESC :: lit "[3m") ++ lit "a"
           ++ (ESC :: lit "[0m") ++ ESC :: lit "[0m").
Proof.
  split; [vm_compute; reflexivity|]. split; [vm_compute; reflexivity|].
  split; [|vm_compute; reflexivity].
  intros [k Hk]. vm_compute in Hk. discriminate.
Qed.

(** ** Scanning line by line *)

Section LineScan.
Context {RT : Runtime}.
Variables (r : regex) (start : list N -> bool).
Variable h : gmap nat (list N) -> list N.
Hypothesis Hnm : ∀ p l,
  (at_bol re_M p = true -> start l = false) -> match_at re_M r p l = None.

Lemma lastp_not_bol p l :
  Forall (λ c, c ≠ NL) l -> at_bol re_M p = false ->
  at_bol re_M (lastp p l) = false.
Proof.
  intros Hl. revert p. induction Hl as [|c l Hc Hl IH]; intros p Hp; [done|].
  simpl. apply IH. simpl. unfold is_nl. by destruct (N.eqb_spec c NL).
Qed.

Lemma lastp_nonempty_not_bol p l :
  Forall (λ c, c ≠ NL) l -> l ≠ [] -> at_bol re_M (lastp p l) = false.
Proof.
  intros Hl Hne. destruct Hl as [|c l Hc Hl]; [done|]. simpl.
  apply lastp_not_bol; [done|]. simpl. unfold is_nl.
  by destruct (N.eqb_spec c NL).
Qed.

Lemma scan_inside_line l p rest :
  Forall (λ c, c ≠ NL) l -> at_bol re_M p = false ->
  scan re_M r p (l ++ rest) = (Skip <$> l) ++ scan_tail r rest.
Proof.
  intros Hl. revert p. induction Hl as [|c l Hc Hl IH]; intros p Hp.
  - destruct rest as [|c more]; simpl; [by rewrite scan_equation_1|].
    rewrite scan_skip; [done|]. apply Hnm. congruence.
  - change ((c :: l) ++ rest) with (c :: (l ++ rest)).
    rewrite scan_skip by (apply Hnm; congruence).
    rewrite fmap_cons, IH; [done|]. simpl. unfold is_nl.
    by destruct (N.eqb_spec c NL).
Qed.

Lemma scan_line_miss l p rest :
  line_miss start l -> tail_ok rest ->
  scan re_M r p (l ++ rest) = (Skip <$> l) ++ scan_tail r rest.
Proof.
  intros [Hl Hs] Ht. specialize (Hs rest Ht).
  destruct Hl as [|c l Hc Hl].
  - destruct rest as [|c more]; simpl in *; [by rewrite scan_equation_1|].
    rewrite scan_skip; [done|]. by apply Hnm.
  - change ((c :: l) ++ rest) with (c :: (l ++ rest)) in *.
    rewrite scan_skip by (by apply Hnm).
    rewrite fmap_cons, scan_inside_line; [done..|]. simpl. unfold is_nl.
    by destruct (N.eqb_spec c NL).
Qed.

Lemma scan_line_hit l g p rest :
  line_hit r l g -> at_bol re_M p = true -> tail_ok rest ->
  scan re_M r p (l ++ rest)
  = Hit {| m_prev := lastp p l; m_rest := rest; m_groups := g |}
    :: scan_tail r rest.
Proof.
  intros (Hl & Hne & Hm) Hp Ht. erewrite scan_hit; [|by apply Hm|].
  - simpl. f_equal.
    apply (scan_inside_line [] _ rest); [constructor|].
    by apply lastp_nonempty_not_bol.
  - simpl. rewrite length_app. destruct l; [done|]. simpl. lia.
Qed.

Lemma splice_scan_lines ls p :
  at_bol re_M p = true -> Forall (line_wf r start) ls ->
  splice (λ m, h (m_groups m)) (scan re_M r p (str_join [NL] (fst <$> ls)))
  = str_join [NL] (line_out h <$> ls).
Proof.
  intros Hp Hls. revert p Hp.
  induction Hls as [|[l og] ls Hl Hls IH]; intros p Hp.
  - simpl. by rewrite scan_equation_1.
  - destruct ls as [|lg' ls].
    + simpl. rewrite <- (app_nil_r l) at 1.
      unfold line_wf, line_out in *. simpl in *. destruct og as [g|].
      * rewrite (scan_line_hit l g) by (done || by left). simpl.
        by rewrite app_nil_r.
      * rewrite scan_line_miss by (done || by left). simpl.
        by rewrite app_nil_r, splice_skip.
    + change (str_join [NL] (fst <$> (l, og) :: lg' :: ls))
        with (l ++ NL :: str_join [NL] (fst <$> lg' :: ls)).
      change (str_join [NL] (line_out h <$> (l, og) :: lg' :: ls))
        with (line_out h (l, og) ++ NL :: str_join [NL] (line_out h <$> lg' :: ls)).
      specialize (IH (Some NL) eq_refl).
      remember (str_join [NL] (fst <$> lg' :: ls)) as tl.
      remember (str_join [NL] (line_out h <$> lg' :: ls)) as tl'.
      unfold line_wf, line_out in Hl |- *. simpl in Hl |- *.
      destruct og as [g|].
      * rewrite (scan_line_hit l g) by (done || right; by eexists). simpl.
        by rewrite IH.
      * rewrite scan_line_miss by (done || right; by eexists).
        rewrite splice_skip_app. simpl. by rewrite IH.
Qed.

End LineScan.

(** ** Documents of plain lines and list items *)

Section Documents.
Context {RT : Runtime}.

Context {HA : UnicodeAscii RT}.

Lemma decimal_ne c d :
  uni_isdecimal c = true -> d < 128 -> ascii_isdecimal d = false -> c ≠ d.
Proof. intros Hc Hd Hf ->. rewrite isdecimal_ascii in Hc by done. congruence. Qed.

Lemma space_ne c d :
  uni_isspace c = true -> d < 128 -> ascii_isspace d = false -> c ≠ d.
Proof. intros Hc Hd Hf ->. rewrite isspace_ascii in Hc by done. congruence. Qed.

Lemma markup_free_spec l d :
  markup_free l = true -> markup_char d = true -> Forall (λ c, c ≠ d) l.
Proof.
  unfold markup_free. rewrite forallb_forall, Forall_forall.
  intros H Hd c Hc ->. apply list_elem_of_In, H in Hc. by rewrite Hd in Hc.
Qed.

Lemma blank_spec ws :
  blank ws = true ->
  ws ≠ [] ∧ Forall (λ c, uni_isspace c = true) ws ∧ Forall (λ c, c ≠ NL) ws.
Proof.
  unfold blank. destruct ws as [|w ws]; [done|].
  rewrite forallb_forall. intros H. split; [done|].
  rewrite !Forall_forall. split; intros c Hc; apply list_elem_of_In, H in Hc;
    apply andb_true_iff in Hc as [H1 H2]; [done|].
  unfold is_nl in H2. by destruct (N.eqb_spec c NL).
Qed.

Lemma blank_ne ws d :
  blank ws = true -> d < 128 -> ascii_isspace d = false ->
  Forall (λ c, c ≠ d) ws.
Proof.
  intros (_ & H & _)%blank_spec Hd Hf.
  eapply Forall_impl; [exact H|]. intros c Hc. by eapply space_ne.
Qed.

Lemma digits_spec ds :
  match ds with [] => false | _ => forallb uni_isdecimal ds end = true ->
  ds ≠ [] ∧ Forall (λ c, uni_isdecimal c = true) ds.
Proof.
  destruct ds as [|c ds]; [done|]. rewrite forallb_forall, Forall_forall.
  intros H. split; [done|]. intros x Hx. by apply H, list_elem_of_In.
Qed.

Lemma digits_ne ds d :
  Forall (λ c, uni_isdecimal c = true) ds -> d < 128 ->
  ascii_isdecimal d = false -> Forall (λ c, c ≠ d) ds.
Proof.
  intros H Hd Hf. eapply Forall_impl; [exact H|].
  intros c Hc. by eapply decimal_ne.
Qed.

Lemma item_text_spec body :
  item_text body = true ->
  markup_free body = true ∧
  ∃ b body', body = b :: body' ∧ uni_isspace b = false.
Proof.
  unfold item_text. rewrite andb_true_iff. intros [H1 H2]. split; [done|].
  destruct body as [|b body']; [done|]. exists b, body'. split; [done|].
  by destruct (uni_isspace b).
Qed.

Lemma Forall_str_join (P : N -> Prop) (ls : list (list N)) :
  P NL -> Forall (Forall P) ls -> Forall P (str_join [NL] ls).
Proof.
  intros HNL. induction 1 as [|l ls Hl Hls IH]; [constructor|].
  destruct ls as [|l' ls]; [done|].
  change (str_join [NL] (l :: l' :: ls)) with (l ++ NL :: str_join [NL] (l' :: ls)).
  apply Forall_app. split; [done|]. by constructor.
Qed.

(** The characters of a line: no newline, and no markup character except
    the marker of an unordered item. *)
Lemma source_chars dl d :
  line_ok dl = true -> markup_char d = true ->
  d ≠ chr "*" ∨ (∀ m ws body, dl ≠ Bullet m ws body) ->
  Forall (λ c, c ≠ d) (source dl).
Proof.
  intros Hok Hd Hstar.
  assert (Hd128 : d < 128 ∧ ascii_isdecimal d = false
                  ∧ (d = NL ∨ ascii_isspace d = false)
                  ∧ d ≠ chr "." ∧ d ≠ chr "+").
  { unfold markup_char, is_nl in Hd. eval_lits.
    repeat (apply orb_true_iff in Hd as [Hd|Hd]);
      apply N.eqb_eq in Hd; subst d;
      (split_and!; [unfold NL; lia|reflexivity| |unfold NL; lia..]);
      (by left) || (by right). }
  destruct Hd128 as (Hlt & Hdec & Hsp & Hdot & Hplus).
  assert (Hblank : ∀ ws, blank ws = true -> Forall (λ c, c ≠ d) ws).
  { intros ws Hws. destruct Hsp as [->|Hsp]; [|by apply blank_ne].
    by apply blank_spec in Hws as (_ & _ & Hws). }
  destruct dl as [l|m ws body|ds ws body]; simpl in Hok |- *.
  - rewrite !andb_true_iff in Hok. destruct Hok as [[[[Hm _] _] _] _].
    by apply markup_free_spec.
  - rewrite !andb_true_iff in Hok. destruct Hok as [[Hm Hws] Hb].
    apply item_text_spec in Hb as [Hb _]. constructor.
    + destruct Hstar as [Hstar|Hstar]; [|by destruct (Hstar m ws body)].
      eval_lits. apply orb_true_iff in Hm as [->%N.eqb_eq| ->%N.eqb_eq]; lia.
    + apply Forall_app. split; [by apply Hblank|by apply markup_free_spec].
  - rewrite !andb_true_iff in Hok. destruct Hok as [[Hds Hws] Hb].
    apply digits_spec in Hds as [_ Hds].
    apply item_text_spec in Hb as [Hb _].
    rewrite Forall_app, Forall_cons, Forall_app. split_and!.
    + by apply digits_ne.
    + congruence.
    + by apply Hblank.
    + by apply markup_free_spec.
Qed.

End Documents.

Section ListItems.
Context {RT : Runtime} {HA : UnicodeAscii RT}.

(** What a pattern sees at the start of a line does not depend on the
    lines that follow. *)
Lemma starts_hash_tail l rest :
  starts_with (lit "#") l = false -> tail_ok rest ->
  starts_with (lit "#") (l ++ rest) = false.
Proof.
  eval_lits. intros Hl [->|[more ->]]; [by rewrite app_nil_r|].
  destruct l as [|c l]; simpl in *; done.
Qed.

Lemma starts_quote_tail l rest :
  starts_with (lit "> ") l = false -> tail_ok rest ->
  starts_with (lit "> ") (l ++ rest) = false.
Proof.
  eval_lits. intros Hl [->|[more ->]]; [by rewrite app_nil_r|].
  destruct l as [|c [|c' l]]; simpl in *; [done| |done].
  by rewrite andb_false_r.
Qed.

Lemma starts_ulist_tail l rest :
  starts_ulist (l ++ [NL]) = false -> tail_ok rest ->
  starts_ulist (l ++ rest) = false.
Proof.
  intros Hl [->|[more ->]].
  - rewrite app_nil_r. destruct l as [|c [|w l]]; simpl in *; done.
  - destruct l as [|c [|w l]]; simpl in *; [|done..].
    destruct more; [done|]. eval_lits. done.
Qed.

Lemma isdecimal_NL : uni_isdecimal NL = false.
Proof. by rewrite isdecimal_ascii by (unfold NL; lia). Qed.

Lemma isspace_NL : uni_isspace NL = true.
Proof. by rewrite isspace_ascii by (unfold NL; lia). Qed.

Lemma dot_space_tail l rest :
  dot_space (after_digits (l ++ [NL])) = false -> tail_ok rest ->
  dot_space (after_digits (l ++ rest)) = false.
Proof.
  intros Hl Ht. induction l as [|c l IH].
  - destruct Ht as [->|[more ->]]; simpl; [done|]. rewrite isdecimal_NL.
    unfold dot_space. eval_lits. by destruct more.
  - simpl in *. destruct (uni_isdecimal c); [by apply IH|].
    destruct Ht as [->|[more ->]].
    + rewrite app_nil_r. destruct l as [|w l]; simpl in *; done.
    + destruct l as [|w l]; simpl in *; done.
Qed.

Lemma starts_olist_tail l rest :
  starts_olist (l ++ [NL]) = false -> tail_ok rest ->
  starts_olist (l ++ rest) = false.
Proof.
  intros Hl Ht. destruct l as [|c l].
  - destruct Ht as [->|[more ->]]; simpl; [done|]. by rewrite isdecimal_NL.
  - change ((c :: l) ++ rest) with (c :: (l ++ rest)).
    change ((c :: l) ++ [NL]) with (c :: (l ++ [NL])) in Hl.
    unfold starts_olist in *. destruct (uni_isdecimal c) eqn:Hc; [|done].
    simpl in Hl |- *. by apply (dot_space_tail (c :: l)).
Qed.

(** The unordered pattern on an item written with '*' or '+'. *)
Lemma ulist_match p m ws body rest :
  at_bol re_M p = true ->
  (m =? chr "*") || (m =? chr "+") = true ->
  blank ws = true -> item_text body = true -> tail_ok rest ->
  match_at re_M re_ulist p ((m :: ws ++ body) ++ rest)
  = Some {| m_prev := lastp p (m :: ws ++ body); m_rest := rest;
            m_groups := <[ 1%nat := body ]> ∅ |}.
Proof.
  intros Hp Hm (Hne & Hws & Hwnl)%blank_spec [Hb (b & body' & -> & Hbs)]%item_text_spec Ht.
  apply (markup_free_spec _ NL) in Hb; [|done].
  unfold match_at, re_ulist, plus, star, cs_space. simpl. rewrite Hp.
  assert (Hr : (chr "*" <=? m) && (m <=? chr "+") = true).
  { revert Hm. eval_lits. rewrite orb_true_iff, andb_true_iff, !N.eqb_eq, !N.leb_le.
    lia. }
  rewrite Hr. rewrite <- !app_assoc.
  rewrite (rep_greedy_take _ _ _ ws ((b :: body') ++ rest)
             _ {| m_prev := lastp p (m :: ws ++ b :: body'); m_rest := rest;
                  m_groups := <[ 1%nat := b :: body' ]> ∅ |}); [done|done| | |].
  - destruct ws; [done|]. simpl. lia.
  - intros c [= <-]. done.
  - rewrite (rep_greedy_take _ _ _ (b :: body') rest
               _ {| m_prev := lastp p (m :: ws ++ b :: body'); m_rest := rest;
                    m_groups := <[ 1%nat := b :: body' ]> ∅ |}); [done| | | |].
    + eapply Forall_impl; [exact Hb|]. intros c Hc. simpl. unfold is_nl.
      by destruct (N.eqb_spec c NL).
    + simpl. lia.
    + destruct Ht as [->|[more ->]]; [done|]. intros c [= <-]. done.
    + simpl m_rest. rewrite take_consumed. simpl. by rewrite lastp_app.
Qed.

(** The ordered pattern on an ordered item. *)
Lemma olist_match p ds ws body rest :
  at_bol re_M p = true ->
  ds ≠ [] -> Forall (λ c, uni_isdecimal c = true) ds ->
  blank ws = true -> item_text body = true -> tail_ok rest ->
  match_at re_M re_olist p ((ds ++ lit "." ++ ws ++ body) ++ rest)
  = Some {| m_prev := lastp p (ds ++ lit "." ++ ws ++ body); m_rest := rest;
            m_groups := <[ 1%nat := body ]> ∅ |}.
Proof.
  intros Hp Hdne Hds (Hne & Hws & Hwnl)%blank_spec
    [Hb (b & body' & -> & Hbs)]%item_text_spec Ht.
  apply (markup_free_spec _ NL) in Hb; [|done].
  unfold match_at, re_olist, plus, star, cs_space, cs_digit, rchar.
  eval_lits. simpl. rewrite Hp. rewrite <- !app_assoc.
  set (res := {| m_prev := lastp p (ds ++ [46] ++ ws ++ b :: body');
                 m_rest := rest; m_groups := <[ 1%nat := b :: body' ]> ∅ |}).
  apply rep_greedy_take; [done| | |].
  - destruct ds; [done|]. simpl. lia.
  - intros c [= <-]. simpl. by rewrite isdecimal_ascii by lia.
  - simpl. rewrite <- app_assoc. apply rep_greedy_take; [done| | |].
    + destruct ws; [done|]. simpl. lia.
    + intros c [= <-]. done.
    + apply rep_greedy_take.
      * eapply Forall_impl; [exact Hb|]. intros c Hc. simpl. unfold is_nl.
        by destruct (N.eqb_spec c NL).
      * simpl. lia.
      * destruct Ht as [->|[more ->]]; [done|]. intros c [= <-]. done.
      * simpl m_rest. rewrite take_consumed. unfold res.
        rewrite !lastp_app. simpl. by rewrite lastp_app.
Qed.

End ListItems.

Section AllMiss.
Context {RT : Runtime}.
Variables (r : regex) (start : list N -> bool).
Hypothesis Hnm : ∀ p l,
  (at_bol re_M p = true -> start l = false) -> match_at re_M r p l = None.

(** A pass leaves alone a text on whose lines its pattern finds nothing. *)
Lemma splice_all_miss f ls :
  Forall (line_miss start) ls ->
  splice f (scan re_M r None (str_join [NL] ls)) = str_join [NL] ls.
Proof.
  intros Hls.
  assert (Hs : ∀ p, scan re_M r p (str_join [NL] ls)
                    = Skip <$> str_join [NL] ls).
  { induction Hls as [|l ls Hl Hls IH]; intros p.
    - simpl. by rewrite scan_equation_1.
    - destruct ls as [|l' ls].
      + simpl. rewrite <- (app_nil_r l) at 1.
        rewrite (scan_line_miss r start Hnm) by (done || by left).
        simpl. by rewrite app_nil_r.
      + change (str_join [NL] (l :: l' :: ls))
          with (l ++ NL :: str_join [NL] (l' :: ls)).
        rewrite (scan_line_miss r start Hnm) by (done || right; by eexists).
        simpl scan_tail. rewrite IH, fmap_app, fmap_cons. done. }
  rewrite Hs. apply splice_skip.
Qed.

End AllMiss.

Section Contains.
Local Arguments N.eqb : simpl never.

Lemma existsb_positions (g : list N -> bool) p q s :
  existsb (λ pl, g pl.2) (positions p s) = existsb (λ pl, g pl.2) (positions q s).
Proof.
  by destruct s.
Qed.

Lemma contains_cons pat c s :
  contains pat (c :: s) = starts_with pat (c :: s) || contains pat s.
Proof.
  unfold contains. simpl. f_equal.
  apply (existsb_positions (starts_with pat)).
Qed.

(** A doubled character does not straddle a newline. *)
Lemma contains_pair_line d l rest :
  d ≠ NL ->
  contains [d; d] (l ++ NL :: rest) = contains [d; d] l || contains [d; d] rest.
Proof.
  intros Hd. assert (HNL : (NL =? d) = false) by (by apply N.eqb_neq).
  induction l as [|c l IH].
  - simpl app. rewrite contains_cons. simpl. by rewrite HNL.
  - change ((c :: l) ++ NL :: rest) with (c :: (l ++ NL :: rest)).
    rewrite !contains_cons, IH, orb_assoc. f_equal. f_equal.
    destruct l as [|c' l]; simpl; [|done].
    by rewrite HNL, !andb_false_r.
Qed.

Lemma contains_pair_join d ls :
  d ≠ NL ->
  Forall (λ l, contains [d; d] l = false) ls ->
  contains [d; d] (str_join [NL] ls) = false.
Proof.
  intros Hd. induction 1 as [|l ls Hl Hls IH]; [done|].
  destruct ls as [|l' ls]; [done|].
  change (str_join [NL] (l :: l' :: ls))
    with (l ++ NL :: str_join [NL] (l' :: ls)).
  by rewrite contains_pair_line, Hl, IH.
Qed.

End Contains.

(** ** Rendering a document of plain lines and list items *)

Section Rendering.
Context {RT : Runtime} {HA : UnicodeAscii RT}.

Lemma source_no_nl dl :
  line_ok dl = true -> Forall (λ c, c ≠ NL) (source dl).
Proof. intros H. apply source_chars; [done|done|]. left. by eval_lits. Qed.

(** The first character of an item line. *)
Lemma item_head dl :
  line_ok dl = true ->
  match dl with
  | Plain _ => True
  | Bullet m _ _ => m = chr "*" ∨ m = chr "+"
  | Ordered ds _ _ => ∃ d ds', ds = d :: ds' ∧ uni_isdecimal d = true
  end.
Proof.
  destruct dl as [l|m ws body|ds ws body]; simpl; [done| |].
  - rewrite !andb_true_iff, orb_true_iff, !N.eqb_eq. tauto.
  - rewrite !andb_true_iff. intros [[[Hne Hds]%digits_spec _] _].
    destruct ds as [|d ds']; [done|]. exists d, ds'. split; [done|].
    by apply Forall_cons in Hds as [Hd _].
Qed.

Lemma heading_line_miss dl :
  line_ok dl = true -> line_miss (starts_with (lit "#")) (source dl).
Proof.
  intros Hok. split; [by apply source_no_nl|].
  intros rest Ht. apply starts_hash_tail; [|done].
  pose proof (item_head dl Hok) as Hh.
  destruct dl as [l|m ws body|ds ws body]; simpl in *.
  - rewrite !andb_true_iff, !negb_true_iff in Hok. tauto.
  - eval_lits. destruct Hh as [->| ->]; done.
  - destruct Hh as (d & ds' & -> & Hd). eval_lits. simpl.
    destruct (N.eqb_spec d 35) as [->|]; [|done].
    by rewrite isdecimal_ascii in Hd by lia.
Qed.

Lemma quote_line_miss dl :
  line_ok dl = true -> line_miss (starts_with (lit "> ")) (source dl).
Proof.
  intros Hok. split; [by apply source_no_nl|].
  intros rest Ht. apply starts_quote_tail; [|done].
  pose proof (item_head dl Hok) as Hh.
  destruct dl as [l|m ws body|ds ws body]; simpl in *.
  - rewrite !andb_true_iff, !negb_true_iff in Hok. tauto.
  - eval_lits. destruct Hh as [->| ->]; done.
  - destruct Hh as (d & ds' & -> & Hd). eval_lits. simpl.
    destruct (N.eqb_spec d 62) as [->|]; [|done].
    by rewrite isdecimal_ascii in Hd by lia.
Qed.

Lemma ulist_line_wf dl :
  line_ok dl = true ->
  line_wf re_ulist starts_ulist (source dl, ulist_groups dl).
Proof.
  intros Hok. pose proof (item_head dl Hok) as Hh.
  pose proof (source_no_nl dl Hok) as Hnl.
  destruct dl as [l|m ws body|ds ws body]; unfold line_wf; simpl in *.
  - split; [done|]. intros rest Ht. apply starts_ulist_tail; [|done].
    rewrite !andb_true_iff, !negb_true_iff in Hok. tauto.
  - split; [done|]. split; [done|]. intros p rest Hp Ht.
    rewrite !andb_true_iff in Hok. destruct Hok as [[Hm Hws] Hb].
    by apply (ulist_match p m ws body rest).
  - split; [done|]. intros rest Ht.
    destruct Hh as (d & ds' & -> & Hd).
    assert (Hr : (chr "*" <=? d) && (d <=? chr "+") = false).
    { eval_lits.
      destruct (N.leb_spec 42 d); [|done]. destruct (N.leb_spec d 43); [|done].
      rewrite isdecimal_ascii in Hd by lia. unfold ascii_isdecimal in Hd.
      destruct (N.leb_spec 48 d); [lia|done]. }
    unfold starts_ulist.
    match goal with |- match ?t with _ => _ end = _ =>
      remember t as x eqn:E end.
    destruct x as [|m [|w x]]; [done..|].
    simpl in E. injection E as -> _. by rewrite Hr.
Qed.

Lemma olist_line_wf dl :
  line_ok dl = true ->
  line_wf re_olist starts_olist (after_ulist dl, olist_groups dl).
Proof.
  intros Hok. pose proof (item_head dl Hok) as Hh.
  pose proof (source_no_nl dl Hok) as Hnl.
  destruct dl as [l|m ws body|ds ws body]; unfold line_wf; simpl in *.
  - split; [done|]. intros rest Ht. apply starts_olist_tail; [|done].
    rewrite !andb_true_iff, !negb_true_iff in Hok. tauto.
  - rewrite !andb_true_iff in Hok. destruct Hok as [[Hm Hws] Hb].
    apply item_text_spec in Hb as [Hb _].
    apply (markup_free_spec _ NL) in Hb; [|done].
    split.
    + eval_lits. simpl. repeat (constructor; [done|]). done.
    + intros rest Ht. eval_lits. simpl. unfold starts_olist.
      by rewrite isdecimal_ascii by lia.
  - rewrite !andb_true_iff in Hok. destruct Hok as [[Hds Hws] Hb].
    apply digits_spec in Hds as [Hne Hds].
    split; [done|]. split.
    + by destruct ds.
    + intros p rest Hp Ht. by apply (olist_match p ds ws body rest).
Qed.

Lemma source_no_double_star dl :
  line_ok dl = true -> contains (lit "**") (source dl) = false.
Proof.
  intros Hok. eval_lits.
  destruct dl as [l|m ws body|ds ws body].
  - apply (no_char_no_prefix 42 [42]), (source_chars (Plain l)); [done..|].
    right. done.
  - simpl in *. rewrite !andb_true_iff in Hok. destruct Hok as [[Hm Hws] Hb].
    pose proof (blank_ne ws 42 Hws) as Hw.
    apply item_text_spec in Hb as [Hb _].
    apply (markup_free_spec _ 42) in Hb; [|done].
    rewrite contains_cons. apply orb_false_iff. split.
    + destruct ws as [|w ws]; [done|]. simpl.
      assert (w ≠ 42) as Hw42.
      { specialize (Hw ltac:(lia) eq_refl). by apply Forall_cons in Hw as [? _]. }
      destruct (N.eqb_spec w 42); [done|]. by rewrite andb_false_r.
    + apply (no_char_no_prefix 42 [42]). apply Forall_app. split; [|done].
      by apply Hw.
  - apply (no_char_no_prefix 42 [42]), (source_chars (Ordered ds ws body));
      [done..|]. right. done.
Qed.

Lemma rendered_chars dl d :
  line_ok dl = true -> markup_char d = true -> Forall (λ c, c ≠ d) (rendered dl).
Proof.
  intros Hok Hd.
  assert (Hi : Forall (λ c, c ≠ d) inserted).
  { unfold markup_char, is_nl in Hd. revert Hd. eval_lits. intros Hd.
    repeat (apply orb_true_iff in Hd as [Hd|Hd]);
      apply N.eqb_eq in Hd; subst d;
      apply (bool_decide_unpack _); vm_compute; reflexivity. }
  destruct dl as [l|m ws body|ds ws body]; simpl in Hok; unfold rendered.
  - rewrite !andb_true_iff in Hok. destruct Hok as [[[[Hm _] _] _] _].
    by apply markup_free_spec.
  - rewrite !andb_true_iff in Hok. destruct Hok as [[_ _] Hb].
    apply item_text_spec in Hb as [Hb _]. apply Forall_app. split.
    + by apply Forall_inserted.
    + by apply markup_free_spec.
  - rewrite !andb_true_iff in Hok. destruct Hok as [[_ _] Hb].
    apply item_text_spec in Hb as [Hb _]. apply Forall_app. split.
    + by apply Forall_inserted.
    + by apply markup_free_spec.
Qed.

(** Line by line: the passes on a document of plain lines and list items. *)
Lemma render_document (lines : list doc_line) :
  forallb line_ok lines = true ->
  render_markdown (str_join [NL] (source <$> lines))
  = ret (str_join [NL] (rendered <$> lines)).
Proof.
  intros Hok. rewrite forallb_forall in Hok.
  assert (Hall : Forall (λ dl, line_ok dl = true) lines).
  { apply Forall_forall. intros dl Hdl. by apply Hok, list_elem_of_In. }
  clear Hok. set (doc := str_join [NL] (source <$> lines)).
  assert (Hchars : ∀ d, markup_char d = true -> d ≠ chr "*" -> d ≠ NL ->
                        Forall (λ c, c ≠ d) doc).
  { intros d Hd Hs Hn. apply Forall_str_join.
    - congruence.
    - apply Forall_fmap. eapply Forall_impl; [exact Hall|].
      intros dl Hdl. apply source_chars; [done..|]. by left. }
  assert (H1 : sub_heading doc = doc).
  { apply (splice_all_miss re_heading (starts_with (lit "#")) heading_nomatch).
    apply Forall_fmap. eapply Forall_impl; [exact Hall|].
    apply heading_line_miss. }
  assert (H2 : sub_bold doc = doc).
  { apply sub_bold_id. eval_lits. apply contains_pair_join; [done|].
    apply Forall_fmap. eapply Forall_impl; [exact Hall|].
    apply source_no_double_star. }
  assert (H3 : sub_italic doc = doc).
  { apply sub_italic_id. eval_lits. apply (no_char_no_prefix 95 []).
    by apply Hchars. }
  assert (H4 : sub_underline doc = doc).
  { apply sub_underline_id. eval_lits. apply (no_char_no_prefix 95 []).
    by apply Hchars. }
  assert (H5 : sub_strike doc = doc).
  { apply sub_strike_id. eval_lits. apply (no_char_no_prefix 126 [126]).
    by apply Hchars. }
  assert (H6 : sub_quote doc = doc).
  { apply (splice_all_miss re_quote (starts_with (lit "> ")) quote_nomatch).
    apply Forall_fmap. eapply Forall_impl; [exact Hall|].
    apply quote_line_miss. }
  assert (H7 : sub_ulist doc = str_join [NL] (after_ulist <$> lines)).
  { unfold sub_ulist, doc.
    set (h := λ g : gmap nat (list N), lit "- " ++ fmt (g !! 1%nat)).
    set (ls := (λ dl, (source dl, ulist_groups dl)) <$> lines).
    replace (source <$> lines) with (fst <$> ls)
      by (unfold ls; rewrite <- list_fmap_compose; done).
    replace (after_ulist <$> lines) with (line_out h <$> ls).
    - apply (splice_scan_lines re_ulist starts_ulist h (@ulist_nomatch _)
               ls None eq_refl).
      unfold ls. apply Forall_fmap. eapply Forall_impl; [exact Hall|].
      apply ulist_line_wf.
    - unfold ls. rewrite <- list_fmap_compose. apply list_fmap_ext.
      intros i [l|m ws body|ds ws body] _; unfold line_out, h; simpl; [done| |done].
      by rewrite lookup_insert_eq. }
  assert (H8 : sub_olist (str_join [NL] (after_ulist <$> lines))
               = str_join [NL] (rendered <$> lines)).
  { unfold sub_olist.
    set (h := λ g : gmap nat (list N), lit "1. " ++ fmt (g !! 1%nat)).
    set (ls := (λ dl, (after_ulist dl, olist_groups dl)) <$> lines).
    replace (after_ulist <$> lines) with (fst <$> ls)
      by (unfold ls; rewrite <- list_fmap_compose; done).
    replace (rendered <$> lines) with (line_out h <$> ls).
    - apply (splice_scan_lines re_olist starts_olist h (@olist_nomatch _ _)
               ls None eq_refl).
      unfold ls. apply Forall_fmap. eapply Forall_impl; [exact Hall|].
      apply olist_line_wf.
    - unfold ls. rewrite <- list_fmap_compose. apply list_fmap_ext.
      intros i [l|m ws body|ds ws body] _; unfold line_out, h; simpl; [done..|].
      by rewrite lookup_insert_eq. }
  unfold render_markdown. rewrite style_stages_pure, bind_ret_l.
  rewrite H1, H2, H3, H4, H5, H6, H7, H8.
  apply fence_stage_id. eval_lits. apply (no_char_no_prefix 96 [96; 96]).
  apply Forall_str_join; [done|].
  apply Forall_fmap. eapply Forall_impl; [exact Hall|].
  intros dl Hdl. by apply rendered_chars.
Qed.

(** C6, amended (and the unordered items of C5 that the code handles).
    In a document whose lines are plain text, unordered items written
    with '*' or '+', and ordered items, where an item is its marker (or
    one or more digits and a period), whitespace on the line, and a text
    that is not empty, has no markup and does not begin with whitespace,
    [render_markdown] replaces the prefix of every ordered item by "1. ",
    whatever its number, and the prefix of every unordered item by "- ",
    and leaves the rest of the document as it is. *)
Theorem list_items_normalized (lines : list doc_line) :
  forallb line_ok lines = true ->
  render_markdown (str_join [NL] (source <$> lines))
  = ret (str_join [NL] (rendered <$> lines)).
Proof. apply render_document. Qed.

End Rendering.

Section Dashes.
Context {RT : Runtime} {HA : UnicodeAscii RT}.

Lemma blank_markup_free ws : blank ws = true -> markup_free ws = true.
Proof.
  intros (_ & Hws & Hnl)%blank_spec. unfold markup_free.
  apply forallb_forall. intros c Hc%list_elem_of_In.
  rewrite Forall_forall in Hws, Hnl.
  specialize (Hws c Hc). specialize (Hnl c Hc).
  unfold markup_char, is_nl. eval_lits.
  destruct (N.eqb_spec c NL); [done|]. simpl.
  destruct (N.eqb_spec c 42) as [->|];
    [by rewrite isspace_ascii in Hws by lia|]. simpl.
  destruct (N.eqb_spec c 95) as [->|];
    [by rewrite isspace_ascii in Hws by lia|]. simpl.
  destruct (N.eqb_spec c 126) as [->|];
    [by rewrite isspace_ascii in Hws by lia|]. simpl.
  destruct (N.eqb_spec c 96) as [->|];
    [by rewrite isspace_ascii in Hws by lia|]. done.
Qed.

(** C5, where the code departs from it. The class of the unordered
    pattern is the range from '*' to '+', which leaves '-' out: a line
    that begins with '-' and whitespace comes out of [render_markdown] as
    it went in, whatever the whitespace, and is not rewritten to "- "
    and the text of the item. *)
Theorem dash_item_unchanged (ws body : list N) :
  blank ws = true -> item_text body = true ->
  in_charset re_M (CRange (chr "*") (chr "+")) (chr "-") = false ∧
  render_markdown (lit "-" ++ ws ++ body) = ret (lit "-" ++ ws ++ body).
Proof.
  intros Hws Hb. split; [reflexivity|].
  apply (render_document [Plain (lit "-" ++ ws ++ body)]).
  simpl. rewrite andb_true_r, !andb_true_iff, !negb_true_iff.
  pose proof (blank_markup_free ws Hws) as Hw.
  apply item_text_spec in Hb as [Hb _].
  eval_lits. split_and!.
  - unfold markup_free in *. simpl. rewrite forallb_app, Hw, Hb. done.
  - done.
  - done.
  - simpl. destruct ((ws ++ body) ++ [NL]); done.
  - simpl. unfold starts_olist. by rewrite isdecimal_ascii by lia.
Qed.

(** The two scenarios of the specification. *)
Lemma unordered_scenario :
  render_markdown (lit "- item one" ++ [NL] ++ lit "* item two" ++ [NL])
  = ret (lit "- item one" ++ [NL] ++ lit "- item two" ++ [NL]).
Proof.
  apply (render_document
           [Plain (lit "- item one"); Bullet (chr "*") (lit " ") (lit "item two");
            Plain []]).
  cbv -[uni_isspace uni_isdecimal].
  repeat match goal with
  | |- context [uni_isspace ?c] => rewrite (isspace_ascii c) by lia
  | |- context [uni_isdecimal ?c] => rewrite (isdecimal_ascii c) by lia
  end.
  vm_compute. reflexivity.
Qed.

Lemma ordered_scenario :
  render_markdown (lit "1. first" ++ [NL] ++ lit "2. second" ++ [NL])
  = ret (lit "1. first" ++ [NL] ++ lit "1. second" ++ [NL]).
Proof.
  apply (render_document
           [Ordered (lit "1") (lit " ") (lit "first");
            Ordered (lit "2") (lit " ") (lit "second"); Plain []]).
  cbv -[uni_isspace uni_isdecimal].
  repeat match goal with
  | |- context [uni_isspace ?c] => rewrite (isspace_ascii c) by lia
  | |- context [uni_isdecimal ?c] => rewrite (isdecimal_ascii c) by lia
  end.
  vm_compute. reflexivity.
Qed.

End Dashes.

Lemma dash_item_unchanged_witness :
  blank (RT := Sample.runtime) [9] = true ∧
  item_text (RT := Sample.runtime) (lit "item") = true ∧
  render_markdown (RT := Sample.runtime) (lit "-" ++ [9] ++ lit "item")
    = ret (lit "-" ++ [9] ++ lit "item") ∧
  lit "-" ++ [9] ++ lit "item" ≠ lit "- " ++ lit "item".
Proof.
  split; [vm_compute; reflexivity|]. split; [vm_compute; reflexivity|].
  split; [|vm_compute; discriminate].
  apply (dash_item_unchanged (RT := Sample.runtime) (HA := sample_ascii_laws)
           [9] (lit "item")); vm_compute; reflexivity.
Defined.

Lemma list_items_normalized_witness :
  forallb (line_ok (RT := Sample.runtime))
    [Ordered (lit "1") (lit " ") (lit "first");
     Ordered (lit "2") (lit " ") (lit "second"); Plain []] = true ∧
  render_markdown (RT := Sample.runtime)
    (lit "1. first" ++ [NL] ++ lit "2. second" ++ [NL])
  = ret (lit "1. first" ++ [NL] ++ lit "1. second" ++ [NL]).
Proof.
  split; [vm_compute; reflexivity|].
  apply (list_items_normalized (RT := Sample.runtime) (HA := sample_ascii_laws)
           [Ordered (lit "1") (lit " ") (lit "first");
            Ordered (lit "2") (lit " ") (lit "second"); Plain []]).
  vm_compute. reflexivity.
Defined.

(** C6 as stated fails on an ordered item without text: the whitespace
    of the pattern runs over the end of the line, the next line is taken
    for the text of the item, and its own prefix stays. *)
Lemma ordered_empty_item :
  render_markdown (RT := Sample.runtime) (lit "1. " ++ [NL] ++ lit "2. x")
    = ret (lit "1. 2. x") ∧
  lit "1. 2. x" ≠ lit "1. " ++ [NL] ++ lit "1. x".
Proof. split; [vm_compute; reflexivity|vm_compute; discriminate]. Qed.

(** ** The pipeline around [render_markdown] *)

Section Pipeline.
Context {RT : Runtime}.

Lemma render_markdown_calls (text : list N) :
  ∃ styled out,
    style_stages text = ret styled ∧
    render_markdown text
    = (flat_map (λ b, highlight_calls b.2 (lang_or_plaintext b.1))
         (re_findall re_S re_fence styled),
       Return out).
Proof.
  eexists. pose proof (style_stages_pure text) as Hs.
  match type of Hs with _ = ret ?t =>
    destruct (highlight_blocks_calls (re_findall re_S re_fence t) t)
      as [Ht [out Hr]] end.
  exists out. split; [exact Hs|].
  unfold render_markdown. rewrite Hs, bind_ret_l. unfold fence_stage.
  unfold trace, result in *.
  destruct (highlight_blocks _ _) as [t r]. simpl in *. by subst.
Qed.

(** [render_markdown] never raises, whatever pygments does: the styling
    passes are pure, and the only calls out of the program are those of
    [highlight_code], one for each fenced block that [re.findall] returns
    on the styled text, in order. *)
Theorem render_markdown_never_raises (text : list N) :
  ∃ styled out,
    style_stages text = ret styled ∧
    render_markdown text
    = (flat_map (λ b, highlight_calls b.2 (lang_or_plaintext b.1))
         (re_findall re_S re_fence styled),
       Return out).
Proof. apply render_markdown_calls. Qed.



(** With [--html], a failure of the converter leaves [view_markdown] with
    that exception and nothing printed. *)
Theorem view_markdown_html_failure (content : list N) (word_limit : option Z)
    (calls : list event) (styled : list N) (e : exn) :
  render_markdown content = (calls, Return styled) ->
  markdown_to_html styled = Raise e ->
  view_markdown content word_limit true
  = (calls ++ [Ev_markdown_to_html styled], Raise e).
Proof.
  intros Hr He. unfold view_markdown. rewrite Hr. unfold bind, call.
  rewrite He. reflexivity.
Qed.

(** [get_file_content] consults one source, chosen by the prefix of its
    argument, and ends in one of three ways: it returns the content; it
    prints one message and exits with status 1 (a missing file, a failed
    request); or it lets through an exception of another kind, with
    nothing printed. *)
Theorem get_file_content_outcomes (id : list N) :
  let url := starts_with (lit "https://raw.githubusercontent.com") id in
  let access := if url then Ev_requests_get id else Ev_open id in
  (∃ content, get_file_content id = ([access], Return content)) ∨
  (∃ msg, get_file_content id = ([access; Ev_print msg], Raise (SystemExit 1))) ∨
  (∃ e, get_file_content id = ([access], Raise e) ∧
        if url then ∀ msg, e ≠ RequestException msg
        else ∀ msg, e ≠ FileNotFoundError msg).
Proof.
  unfold get_file_content, fetch_github_raw, try_except, call, print, sys_exit,
    bind, raise.
  destruct (starts_with _ id); simpl.
  - destruct (requests_get_text id) as [c|e]; [left; by eexists|].
    destruct e;
      try (right; right; eexists; split; [reflexivity|done]).
    right; left. by eexists.
  - destruct (open_read id) as [c|e]; [left; by eexists|].
    destruct e;
      try (right; right; eexists; split; [reflexivity|done]).
    right; left. by eexists.
Qed.

(** The messages of the two failures. *)
Theorem get_file_content_missing (path msg : list N) :
  starts_with (lit "https://raw.githubusercontent.com") path = false ->
  open_read path = Raise (FileNotFoundError msg) ->
  get_file_content path
  = ([Ev_open path; Ev_print (lit "File " ++ path ++ lit " not found.")],
     Raise (SystemExit 1)).
Proof.
  intros Hp Ho. unfold get_file_content. rewrite Hp.
  unfold try_except, call. rewrite Ho. reflexivity.
Qed.

(** Options that [main] does not recognise are dropped without a word:
    unless [argv] has exactly three entries and the third is made of
    digits, or more than three and the third is "--html", the program
    runs as if it had been given the file alone. *)
Theorem main_options_ignored (prog path : list N) (rest : list (list N)) :
  (length (prog :: path :: rest) =? 3)%nat
    && str_isdigit (argv_at (prog :: path :: rest) 2) = false ->
  (3 <? length (prog :: path :: rest))%nat
    && str_eqb (argv_at (prog :: path :: rest) 2) (lit "--html") = false ->
  main (prog :: path :: rest) = main [prog; path].
Proof.
  intros H1 H2. unfold main. rewrite H1, H2. reflexivity.
Qed.

(** The word limit is converted before the content is fetched, and a
    failure of the conversion is not caught. *)
Theorem main_word_limit_unguarded (prog path limit : list N) (e : exn) :
  str_isdigit limit = true ->
  int_of_str limit = Raise e ->
  main [prog; path; limit] = ([], Raise e).
Proof.
  intros Hd Hi. unfold main.
  change (argv_at [prog; path; limit] 2) with limit.
  change (length [prog; path; limit]) with 3%nat.
  rewrite Hd. simpl. unfold bind. rewrite Hi. reflexivity.
Qed.


End Pipeline.

Lemma view_markdown_html_failure_witness :
  view_markdown (RT := Sample.no_html) (lit "text") None true
  = ([Ev_markdown_to_html (lit "text")], Raise (OtherException (lit "ValueError"))).
Proof.
  apply (view_markdown_html_failure (RT := Sample.no_html) (lit "text") None []
           (lit "text") (OtherException (lit "ValueError"))); reflexivity.
Defined.

Lemma main_word_limit_unguarded_witness :
  main (RT := Sample.any_digits) [lit "view"; lit "README.md"; [178]]
  = ([], Raise (OtherException (lit "ValueError"))).
Proof.
  apply (main_word_limit_unguarded (RT := Sample.any_digits) (lit "view")
           (lit "README.md") [178] (OtherException (lit "ValueError")));
    reflexivity.
Defined.

Lemma get_file_content_missing_witness :
  get_file_content (RT := Sample.runtime) (lit "nofile.md")
  = ([Ev_open (lit "nofile.md");
      Ev_print (lit "File " ++ lit "nofile.md" ++ lit " not found.")],
     Raise (SystemExit 1)).
Proof.
  apply (get_file_content_missing (RT := Sample.runtime) (lit "nofile.md")
           (lit "nofile.md")); reflexivity.
Defined.

Lemma main_options_ignored_witness :
  main (RT := Sample.runtime) [lit "view"; lit "README.md"; lit "--html"]
  = main (RT := Sample.runtime) [lit "view"; lit "README.md"].
Proof.
  apply (main_options_ignored (RT := Sample.runtime) (lit "view")
           (lit "README.md") [lit "--html"]); vm_compute; reflexivity.
Defined.


(** ** The underline pass *)

Section Underline.
Context {RT : Runtime}.

(** A lazy star stops at the first position where the rest of the pattern
    matches. *)
Lemma rep_lazy_min {R} ok prev s (k : option N -> list N -> option R) r :
  rep_lazy ok 0 None prev s k = Some r ->
  ∃ t s', s = t ++ s' ∧ k (lastp prev t) s' = Some r ∧
    Forall (λ c, ok c = true) t ∧
    ∀ t1 t2, t = t1 ++ t2 -> t2 ≠ [] -> k (lastp prev t1) (t2 ++ s') = None.
Proof.
  revert prev. induction s as [|c s IH]; intros prev; simpl.
  - destruct (k prev []) eqn:E; [|done]. intros [= ->].
    exists [], []. split_and!; [done..|]. intros t1 t2 Ht Hne.
    symmetry in Ht. apply app_eq_nil in Ht as [_ ->]. done.
  - destruct (k prev (c :: s)) eqn:E.
    + intros [= ->]. exists [], (c :: s). split_and!; [done..|].
      intros t1 t2 Ht Hne. symmetry in Ht. apply app_eq_nil in Ht as [_ ->]. done.
    + destruct (ok c) eqn:Hc; [|done]. simpl. intros H.
      apply IH in H as (t & s' & -> & Hk & Hok & Hmin).
      exists (c :: t), s'. split_and!; [done|done|by constructor|].
      intros [|c1 t1] t2 Ht Hne; simpl in Ht.
      * subst t2. exact E.
      * injection Ht as <- ->. by apply Hmin.
Qed.

Lemma Forall_no_head (d : N) (t : list N) :
  (∀ t1 t2, t = t1 ++ t2 -> head t2 ≠ Some d) -> Forall (λ c, c ≠ d) t.
Proof.
  induction t as [|c t IH]; intros H; [constructor|]. constructor.
  - intros ->. by apply (H [] (d :: t)).
  - apply IH. intros t1 t2 ->. by apply (H (c :: t1) t2).
Qed.

(** What the single-underscore pattern matches: two underscores on a
    line and what is between them, without an underscore. *)
Lemma italic_match_inv p s m :
  match_at no_flags re_italic p s = Some m ->
  ∃ g, s = 95 :: g ++ 95 :: m_rest m ∧ Forall (λ c, c ≠ 95) g ∧
       m_groups m = <[ 1%nat := g ]> ∅.
Proof.
  unfold match_at, re_italic, rchar, lazy_star. eval_lits. simpl.
  destruct s as [|c s]; [done|]. destruct (N.eqb_spec c 95) as [->|]; [|done].
  intros H. apply rep_lazy_min in H as (t & s' & -> & Hk & _ & Hmin).
  destruct s' as [|c' s']; [done|].
  destruct (N.eqb_spec c' 95) as [->|]; [|done].
  injection Hk as <-. simpl. exists t. split_and!.
  - done.
  - apply Forall_no_head. intros t1 t2 -> Hh.
    destruct t2 as [|c2 t2]; [done|]. injection Hh as ->.
    specialize (Hmin t1 (95 :: t2) eq_refl ltac:(done)). simpl in Hmin.
    done.
  - by rewrite take_consumed.
Qed.

Lemma italic_match_double p rest :
  match_at no_flags re_italic p (95 :: 95 :: rest)
  = Some {| m_prev := Some 95; m_rest := rest; m_groups := <[ 1%nat := [] ]> ∅ |}.
Proof.
  unfold match_at, re_italic, rchar, lazy_star. eval_lits. simpl.
  replace (length rest - length rest)%nat with 0%nat by lia. reflexivity.
Qed.

(** The text that the single-underscore pass builds has no two
    underscores side by side. *)
Lemma contains_pair_app (d : N) (a b : list N) :
  contains [d; d] a = false -> contains [d; d] b = false ->
  last a ≠ Some d ∨ head b ≠ Some d ->
  contains [d; d] (a ++ b) = false.
Proof.
  induction a as [|c a IH]; intros Ha Hb Hl; [done|].
  change ((c :: a) ++ b) with (c :: (a ++ b)).
  rewrite contains_cons in Ha |- *. apply orb_false_iff in Ha as [Hs Ha].
  apply orb_false_iff. split.
  - destruct a as [|c' a]; [|exact Hs]. simpl in *.
    destruct (N.eqb_spec c d) as [->|]; [|done].
    destruct Hl as [Hl|Hl]; [done|].
    destruct b as [|c'' b]; [done|]. simpl in *.
    destruct (N.eqb_spec c'' d) as [->|]; done.
  - destruct a as [|c' a]; [exact Hb|].
    apply IH; [done..|]. destruct Hl as [Hl|Hl]; [by left|by right].
Qed.

Lemma span_italic_chars m :
  (∃ g, Forall (λ c, c ≠ 95) g ∧ m_groups m = <[ 1%nat := g ]> ∅) ->
  ∃ body, span "italic" 1 m = 27 :: body ++ [109] ∧
          Forall (λ c, c ≠ 95) (27 :: body ++ [109]).
Proof.
  intros (g & Hg & Hm). unfold span, fmt, group. rewrite Hm, lookup_insert_eq.
  exists ([91; 51; 109] ++ g ++ [27; 91; 48]). split.
  - vm_compute dict_get. eval_lits. simpl. rewrite <- !app_assoc. reflexivity.
  - constructor; [done|]. rewrite !Forall_app.
    repeat split; try done; repeat constructor; done.
Qed.

Lemma italic_no_pair s :
  ∀ prev,
    contains [95; 95] (splice (span "italic" 1) (scan no_flags re_italic prev s))
      = false ∧
    (head (splice (span "italic" 1) (scan no_flags re_italic prev s)) = Some 95 ->
     head s = Some 95).
Proof.
  remember (length s) as n eqn:Hn. revert s Hn.
  induction n as [n IH] using lt_wf_ind. intros [|c s] Hn prev.
  - rewrite scan_equation_1. done.
  - rewrite scan_equation_2.
    assert (Hskip :
      ¬ (∃ rest, s = 95 :: rest ∧ c = 95) ->
      contains [95; 95]
        (splice (span "italic" 1) (Skip c :: scan no_flags re_italic (Some c) s))
        = false ∧
      (head (splice (span "italic" 1)
               (Skip c :: scan no_flags re_italic (Some c) s)) = Some 95 ->
       head (c :: s) = Some 95)).
    { intros Hno. simpl splice.
      destruct (IH (length s)) with (s := s) (prev := Some c) as [Hc Hh];
        [subst n; simpl; lia|done|].
      split; [|done]. rewrite contains_cons. apply orb_false_iff. split; [|done].
      destruct (splice _ _) as [|c' out] eqn:E; [apply andb_false_r|]. simpl.
      destruct (N.eqb_spec c 95) as [->|]; [|done].
      destruct (N.eqb_spec c' 95) as [->|]; [|done].
      destruct s as [|c'' rest]; [by specialize (Hh eq_refl)|].
      specialize (Hh eq_refl). injection Hh as ->.
      destruct Hno. by exists rest. }
    destruct (match_at no_flags re_italic prev (c :: s)) as [m|] eqn:E.
    + destruct (lt_dec _ _) as [Hlt|Hnlt].
      * pose proof E as Hinv. apply italic_match_inv in Hinv as (g & Hs & Hg & Hm).
        destruct (span_italic_chars m) as (body & Hspan & Hchars);
          [by exists g|].
        destruct (IH (length (m_rest m))) with (s := m_rest m) (prev := m_prev m)
          as [Hc _]; [subst n; exact Hlt|done|].
        simpl splice. split.
        -- apply contains_pair_app; [|done|].
           ++ rewrite Hspan. by apply (no_char_no_prefix 95 [95]).
           ++ left. rewrite Hspan.
              change (27 :: body ++ [109]) with ((27 :: body) ++ [109]).
              rewrite last_snoc. done.
        -- rewrite Hspan. done.
      * apply Hskip. intros (rest & -> & ->).
        rewrite italic_match_double in E. injection E as <-.
        simpl in Hnlt. lia.
    + apply Hskip. intros (rest & -> & ->).
      by rewrite italic_match_double in E.
Qed.

(** The double-underscore pass never changes anything: the
    single-underscore pass before it leaves no two underscores side by
    side, so that the underline pattern has nothing to match. *)
Theorem underline_pass_dead (text : list N) :
  ∃ t,
    re_sub no_flags re_italic (styled 1 "italic") text = ret t ∧
    contains (lit "__") t = false ∧
    re_sub no_flags re_underline (styled 1 "underline") t = ret t.
Proof.
  exists (sub_italic text). split; [|split].
  - apply re_sub_pure, styled_span.
  - eval_lits. apply italic_no_pair.
  - apply re_sub_nomatch.
    pose proof (proj1 (italic_no_pair text None)) as H.
    apply not_contains_spec in H.
    eapply Forall_impl; [exact H|]. intros [p l] Hl. simpl in *.
    unfold match_at, re_underline, rchar. eval_lits. simpl.
    destruct l as [|c [|c' l]]; simpl in *; [done|by destruct (c =? 95)|].
    destruct (c =? 95); [|done]. destruct (c' =? 95); [discriminate|done].
Qed.


End Underline.

(** ** A document that is one fenced block *)

Section FencedBlock.
Context {RT : Runtime} {HA : UnicodeAscii RT}.

Lemma style_stages_inert s : style_inert s = true -> style_stages s = ret s.
Proof.
  unfold style_inert. rewrite !andb_true_iff, !negb_true_iff.
  intros [[[[[[H1 H2] H3] H4] H5] H6] H7].
  rewrite style_stages_pure.
  rewrite sub_heading_id, sub_bold_id, sub_italic_id, sub_underline_id,
    sub_strike_id, sub_quote_id, sub_ulist_id, sub_olist_id by done.
  reflexivity.
Qed.

Lemma starts_with_refl (s post : list N) : starts_with s (s ++ post) = true.
Proof. induction s as [|c s IH]; simpl; [done|]. by rewrite N.eqb_refl. Qed.

(** [s.replace(s, new)] is [new]. *)
Lemma str_replace_self (old new : list N) :
  old ≠ [] -> str_replace old new old = new.
Proof.
  destruct old as [|o old']; [done|]. intros _. unfold str_replace.
  rewrite replace_from_equation_2.
  rewrite <- (app_nil_r (o :: old')) at 2. rewrite starts_with_refl.
  rewrite drop_all, replace_from_equation_1. apply app_nil_r.
Qed.

Lemma fence_tagged_match p lang body post :
  lang ≠ [] -> is_tag lang = true -> Forall (λ c, c ≠ 96) body ->
  match_at re_S re_fence p (lit "```" ++ lang ++ NL :: body ++ lit "```" ++ post)
  = Some {| m_prev := Some 96; m_rest := post;
            m_groups := <[ 2%nat := body ]> (<[ 1%nat := lang ]> ∅) |}.
Proof.
  intros Hne Hl Hb. unfold is_tag in Hl. rewrite forallb_forall in Hl.
  unfold match_at, re_fence, rchar, plus, cs_word, lazy_star.
  eval_lits. simpl.
  erewrite rep_greedy_take; [reflexivity| | | |].
  - apply Forall_forall. intros c Hc. simpl. by apply Hl, list_elem_of_In.
  - destruct lang; [done|]. simpl. lia.
  - intros c [= <-]. simpl.
    by rewrite (isalnum_ascii NL) by (unfold NL; lia).
  - simpl. rewrite rep_lazy_skip.
    + apply rep_lazy_stop. simpl. rewrite take_consumed.
      pose proof (take_consumed lang (NL :: body ++ 96 :: 96 :: 96 :: post)) as Ht.
      simpl in Ht. rewrite Ht. reflexivity.
    + apply Forall_true. done.
    + intros q [|c t2] Hn Hs; [done|]. simpl.
      eapply Forall_suffix_of in Hb; [|exact Hs].
      apply Forall_cons in Hb as [Hc _].
      destruct (N.eqb_spec c 96); done.
Qed.

Lemma findall_one_fence lang body :
  is_tag lang = true -> Forall (λ c, c ≠ 96) body ->
  re_findall re_S re_fence (lit "```" ++ lang ++ NL :: body ++ lit "```")
  = [(lang, body)].
Proof.
  intros Hl Hb. unfold re_findall. destruct lang as [|c lang].
  - pose proof (fence_untagged_match None body [] Hb) as Hm.
    rewrite app_nil_r in Hm. simpl app at 2. erewrite scan_hit; [|exact Hm|].
    + simpl. rewrite scan_equation_1. simpl. unfold group. simpl.
      rewrite lookup_insert_ne, lookup_empty, lookup_insert_eq by done. done.
    + simpl. eval_lits. simpl. lia.
  - pose proof (fence_tagged_match None (c :: lang) body [] ltac:(done) Hl Hb)
      as Hm.
    rewrite app_nil_r in Hm. erewrite scan_hit; [|exact Hm|].
    + simpl. rewrite scan_equation_1. simpl. unfold group. simpl.
      rewrite lookup_insert_ne, !lookup_insert_eq by done. done.
    + simpl. eval_lits. simpl. lia.
Qed.

Lemma fence_stage_one_block lang body :
  is_tag lang = true -> Forall (λ c, c ≠ 96) body ->
  fence_stage (lit "```" ++ lang ++ NL :: body ++ lit "```")
  = highlight_code body (lang_or_plaintext lang).
Proof.
  intros Hl Hb. unfold fence_stage. rewrite findall_one_fence by done.
  cbn [highlight_blocks]. fold (lang_or_plaintext lang).
  destruct (highlight_code_calls body (lang_or_plaintext lang)) as [out Hh].
  rewrite Hh. unfold bind, ret.
  change ([NL] ++ body ++ lit "```") with (NL :: body ++ lit "```").
  rewrite str_replace_self, app_nil_r; [done|]. eval_lits. done.
Qed.

(** A document that is one fenced block, with or without a language tag,
    and with a body that the styling passes leave alone: what
    [render_markdown] returns and the calls it makes are those of
    [highlight_code] on the body, with the tag or "plaintext" as language;
    the fences and the tag are gone.  When pygments does not know the
    language, the result is the body as it was. *)
Theorem fenced_block_document (lang body : list N) :
  is_tag lang = true ->
  contains (lit "`") body = false ->
  style_inert (lit "```" ++ lang ++ NL :: body ++ lit "```") = true ->
  render_markdown (lit "```" ++ lang ++ NL :: body ++ lit "```")
    = highlight_code body (lang_or_plaintext lang) ∧
  (∀ e, get_lexer_by_name (lang_or_plaintext lang) = Raise e ->
        render_markdown (lit "```" ++ lang ++ NL :: body ++ lit "```")
        = ([Ev_get_lexer_by_name (lang_or_plaintext lang)], Return body)).
Proof.
  eval_lits. intros Hl Hb%contains_char Hs.
  assert (Hr : render_markdown ([96; 96; 96] ++ lang ++ NL :: body ++ [96; 96; 96])
               = highlight_code body (lang_or_plaintext lang)).
  { unfold render_markdown. rewrite style_stages_inert, bind_ret_l by done.
    by apply (fence_stage_one_block lang body). }
  split; [exact Hr|]. intros e He. rewrite Hr.
  unfold highlight_code, try_except, bind, call. rewrite He. reflexivity.
Qed.

End FencedBlock.

Lemma fenced_block_document_witness :
  is_tag (RT := Sample.runtime) (lit "xyzzy123") = true ∧
  contains (lit "`") (lit "x = 1" ++ [NL]) = false ∧
  render_markdown (RT := Sample.runtime)
    (lit "```" ++ lit "xyzzy123" ++ NL :: (lit "x = 1" ++ [NL]) ++ lit "```")
  = ([Ev_get_lexer_by_name (lit "xyzzy123")], Return (lit "x = 1" ++ [NL])).
Proof.
  split; [vm_compute; reflexivity|]. split; [vm_compute; reflexivity|].
  apply (proj2 (fenced_block_document (RT := Sample.runtime)
                  (HA := sample_ascii_laws) (lit "xyzzy123") (lit "x = 1" ++ [NL])
                  ltac:(vm_compute; reflexivity) ltac:(vm_compute; reflexivity)
                  ltac:(vm_compute; reflexivity))
           (OtherException (lit "ClassNotFound"))).
  vm_compute. reflexivity.
Defined.
